(** * SmartSearch: the [/smart-search] recommendation pipeline of [src/index.js]

    The handler chains two calls to a text oracle with a fan-out of catalog
    searches.  This development embeds the handler as a function of the
    request body and of the answers of the outside world (oracle texts and
    catalog responses), together with the part of the JavaScript runtime the
    handler relies on: UTF-16 strings, IEEE-754 numbers, dynamic values,
    property reads, coercions, [String.prototype.replace]/[trim] and
    [JSON.parse]. *)

From Stdlib Require Import String Ascii DecimalString.
From Stdlib Require Import List Bool Arith ZArith NArith Lia.
From Stdlib Require Import Floats.SpecFloat.
Import ListNotations.

(** ** Strings: sequences of UTF-16 code units *)

Module JSString.

Definition jsstring := list N.

(** An ASCII literal of the source as a sequence of code units. *)
Definition lit (s : string) : jsstring :=
  map N_of_ascii (list_ascii_of_string s).
#[global] Arguments lit : simpl never.

Fixpoint eqb (a b : jsstring) : bool :=
  match a, b with
  | [], [] => true
  | x :: a', y :: b' => N.eqb x y && eqb a' b'
  | _, _ => false
  end.

(** [starts_with p s]: [s.startsWith(p)]. *)
Fixpoint starts_with (p s : jsstring) : bool :=
  match p, s with
  | [], _ => true
  | x :: p', y :: s' => N.eqb x y && starts_with p' s'
  | _ :: _, [] => false
  end.

(** WhiteSpace and LineTerminator code points (ECMA-262 12.2, 12.3): the
    characters removed by [trim] and skipped by the string-to-number
    conversion. *)
Definition is_white_space (c : N) : bool :=
  ((9 <=? c) && (c <=? 13) || (c =? 32) || (c =? 160) || (c =? 5760)
   || (8192 <=? c) && (c <=? 8202) || (c =? 8232) || (c =? 8233)
   || (c =? 8239) || (c =? 8287) || (c =? 12288) || (c =? 65279))%N.

Fixpoint trimStart (s : jsstring) : jsstring :=
  match s with
  | c :: s' => if is_white_space c then trimStart s' else s
  | [] => []
  end.

Fixpoint trimEnd (s : jsstring) : jsstring :=
  match s with
  | [] => []
  | c :: s' =>
      match trimEnd s' with
      | [] => if is_white_space c then [] else [c]
      | t => c :: t
      end
  end.

(** [s.trim()]. *)
Definition trim (s : jsstring) : jsstring := trimEnd (trimStart s).

(** [s.replace(re, "")] for a global regular expression [re] that never
    matches the empty string.  [match_at t] is the length of the match of
    [re] anchored at the start of [t], when there is one.  The scan goes
    left to right; a match is dropped and the scan resumes after it, an
    unmatched code unit is copied. *)
Fixpoint remove_from (match_at : jsstring -> option nat) (skip : nat)
         (s : jsstring) : jsstring :=
  match s with
  | [] => []
  | c :: s' =>
      match skip with
      | S k => remove_from match_at k s'
      | O =>
          match match_at s with
          | Some (S k) => remove_from match_at k s'
          | _ => c :: remove_from match_at 0 s'
          end
      end
  end.

Definition remove_all (match_at : jsstring -> option nat) (s : jsstring) :=
  remove_from match_at 0 s.

Definition backtick : N := 96.
Definition fence : jsstring := [backtick; backtick; backtick].

(** The regular expression [/```(json)?\n/]: three backticks, optionally
    the word json (greedy, given up when no line feed follows), a line
    feed. *)
Definition fence_open_at (s : jsstring) : option nat :=
  if starts_with (fence ++ lit "json" ++ [10%N]) s then Some 8
  else if starts_with (fence ++ [10%N]) s then Some 4
  else None.

(** The regular expression [/```/]. *)
Definition fence_at (s : jsstring) : option nat :=
  if starts_with fence s then Some 3 else None.

(** [s] has three consecutive backticks somewhere. *)
Fixpoint has_fence (s : jsstring) : bool :=
  match s with
  | [] => false
  | _ :: s' => starts_with fence s || has_fence s'
  end.

(** The first code unit of [s] is [c]. *)
Definition head_is (c : N) (s : jsstring) : bool :=
  match s with
  | x :: _ => (x =? c)%N
  | [] => false
  end.

(** [s] starts with white space. *)
Definition head_white (s : jsstring) : bool :=
  match s with
  | c :: _ => is_white_space c
  | [] => false
  end.

(** The white space characters listed. *)
Definition white_space_chars : list N :=
  [9; 10; 11; 12; 13; 32; 160; 5760; 8192; 8193; 8194; 8195; 8196; 8197;
   8198; 8199; 8200; 8201; 8202; 8232; 8233; 8239; 8287; 12288; 65279]%N.

(** *** encodeURIComponent (ECMA-262 19.2.6) *)

Definition is_high_surrogate (c : N) : bool := ((55296 <=? c) && (c <=? 56319))%N.
Definition is_low_surrogate (c : N) : bool := ((56320 <=? c) && (c <=? 57343))%N.

Definition is_alnum (c : N) : bool :=
  ((48 <=? c) && (c <=? 57) || (65 <=? c) && (c <=? 90)
   || (97 <=? c) && (c <=? 122))%N.

(** The characters that are left as they are: letters, digits and
    [-_.!~*'()]. *)
Definition is_unreserved (c : N) : bool :=
  (is_alnum c || existsb (N.eqb c) [45; 95; 46; 33; 126; 42; 39; 40; 41])%N.

Definition utf8 (cp : N) : list N :=
  (if cp <? 128 then [cp]
   else if cp <? 2048 then [192 + cp / 64; 128 + cp mod 64]
   else if cp <? 65536 then
     [224 + cp / 4096; 128 + (cp / 64) mod 64; 128 + cp mod 64]
   else [240 + cp / 262144; 128 + (cp / 4096) mod 64;
         128 + (cp / 64) mod 64; 128 + cp mod 64])%N.

Definition hex_digit (d : N) : N := (if d <? 10 then 48 + d else 55 + d)%N.

Definition percent (bytes : list N) : jsstring :=
  flat_map (fun b => [37; hex_digit (b / 16); hex_digit (b mod 16)]%N) bytes.

(** [None] is the URIError thrown at a surrogate that is not half of a
    pair. *)
Fixpoint encodeURIComponent (s : jsstring) : option jsstring :=
  match s with
  | [] => Some []
  | c :: s' =>
      if is_unreserved c then option_map (cons c) (encodeURIComponent s')
      else if is_high_surrogate c then
        match s' with
        | d :: s'' =>
            if is_low_surrogate d then
              option_map
                (app (percent (utf8 ((c - 55296) * 1024 + (d - 56320) + 65536)%N)))
                (encodeURIComponent s'')
            else None
        | [] => None
        end
      else if is_low_surrogate c then None
      else option_map (app (percent (utf8 c))) (encodeURIComponent s')
  end.

End JSString.

(** ** Numbers: IEEE-754 binary64 *)

Module JSNumber.
Import JSString.

Definition prec : Z := 53.
Definition emax : Z := 1024.

(** A Number value; [spec_float] has one NaN, two zeros, two infinities. *)
Definition number := spec_float.

Definition NaN : number := S754_nan.
Definition of_Z (z : Z) : number := binary_normalize prec emax z 0 false.

(** The Number value of the decimal [m * 10^e10], rounded to nearest,
    ties to even, with the sign [neg] (kept on a zero result). *)
Definition of_decimal (neg : bool) (m : N) (e10 : Z) : number :=
  match m with
  | N0 => S754_zero neg
  | Npos p =>
      match e10 with
      | Z0 => binary_round prec emax neg p 0
      | Zpos k => binary_round prec emax neg (p * 10 ^ k) 0
      | Zneg k =>
          SFdiv prec emax (S754_finite neg p 0) (S754_finite false (10 ^ k) 0)
      end
  end.

Definition eqb (x y : number) : bool := SFeqb x y.
Definition is_nan (x : number) : bool :=
  match x with S754_nan => true | _ => false end.
Definition is_zero (x : number) : bool :=
  match x with S754_zero _ => true | _ => false end.

(** *** Decimal digits *)

Definition is_digit (c : N) : bool := ((48 <=? c) && (c <=? 57))%N.

Definition digits_of (n : N) : jsstring :=
  lit (NilZero.string_of_uint (N.to_uint n)).

(** Value of a run of decimal digits, most significant first. *)
Definition digits_value (ds : jsstring) : N :=
  fold_left (fun acc c => (acc * 10 + (c - 48))%N) ds 0%N.

(** *** Number::toString (ECMA-262 6.1.6.1.20), radix 10 *)

Fixpoint count_digits (fuel : nat) (z : Z) : Z :=
  match fuel with
  | O => 1
  | S f => if (z <? 10)%Z then 1 else (1 + count_digits f (z / 10))%Z
  end.

Fixpoint leading_zeros (fuel : nat) (num den : Z) (j : Z) : Z :=
  match fuel with
  | O => j
  | S f => if (den <=? num * 10)%Z then j
           else leading_zeros f (num * 10) den (j + 1)
  end.

(** [n] with [10^(n-1) <= num/den < 10^n], for [0 < num], [0 < den]. *)
Definition decimal_exponent (num den : Z) : Z :=
  if (den <=? num)%Z
  then count_digits (S (Z.to_nat (Z.log2 num))) (num / den)
  else (- leading_zeros 400 num den 0)%Z.

(** The decimals with [k] digits around [num/den]: the [k]-digit
    integers [s] just below and just above [x / 10^(n-k)], each with its
    [n]; the closer one first. *)
Definition neighbours (num den n : Z) (k : Z) : list (Z * Z) :=
  let '(a, b) := if (0 <=? n - k)%Z then (num, (den * 10 ^ (n - k))%Z)
                 else ((num * 10 ^ (k - n))%Z, den) in
  let lo := (a / b)%Z in
  let r := (a mod b)%Z in
  let hi := if (lo + 1 =? 10 ^ k)%Z then (10 ^ (k - 1), n + 1)%Z
            else (lo + 1, n)%Z in
  match (2 * r ?= b)%Z with
  | Lt => [(lo, n); hi]
  | Gt => [hi; (lo, n)]
  | Eq => if Z.even lo then [(lo, n); hi] else [hi; (lo, n)]
  end.

Definition round_trips (x : number) (k : Z) (c : Z * Z) : bool :=
  eqb (of_decimal false (Z.to_N (fst c)) (snd c - k)) x.

(** The shortest digit string [s] and exponent [n] that denote [x]. *)
Fixpoint shortest (fuel : nat) (x : number) (num den n k : Z) : Z * Z :=
  match find (round_trips x k) (neighbours num den n k) with
  | Some c => c
  | None =>
      match fuel with
      | O => ((num * 10 ^ (k - n)) / den, n)%Z
      | S f => shortest f x num den n (k + 1)
      end
  end.

Definition zeros (n : Z) : jsstring := repeat 48%N (Z.to_nat n).

Definition format (ds : jsstring) (n : Z) : jsstring :=
  let k := Z.of_nat (length ds) in
  if ((k <=? n) && (n <=? 21))%Z then ds ++ zeros (n - k)
  else if ((0 <? n) && (n <=? 21))%Z then
    firstn (Z.to_nat n) ds ++ lit "." ++ skipn (Z.to_nat n) ds
  else if ((-6 <? n) && (n <=? 0))%Z then
    lit "0." ++ zeros (- n) ++ ds
  else
    let e := (n - 1)%Z in
    let ex := lit (if (e <? 0)%Z then "e-" else "e+") ++ digits_of (Z.abs_N e) in
    match ds with
    | [d] => d :: ex
    | d :: ds' => d :: lit "." ++ ds' ++ ex
    | [] => ex
    end.

Definition toString (x : number) : jsstring :=
  match x with
  | S754_nan => lit "NaN"
  | S754_zero _ => lit "0"
  | S754_infinity s => lit (if s then "-Infinity" else "Infinity")
  | S754_finite s m e =>
      let '(num, den) := match e with
                         | Zneg p => (Zpos m, Zpos (2 ^ p))
                         | _ => (Zpos m * 2 ^ e, 1)%Z
                         end in
      let n := decimal_exponent num den in
      let '(d, n') := shortest 16 (S754_finite false m e) num den n 1 in
      (if s then lit "-" else []) ++ format (digits_of (Z.to_N d)) n'
  end.

End JSNumber.

(** ** Values, property reads and coercions *)

Module JSValue.
Import JSString JSNumber.

(** The values the handler meets: what [JSON.parse] and [response.json()]
    build, and [undefined] for absent properties. *)
#[local] Unset Elimination Schemes.
Inductive value :=
| VUndefined
| VNull
| VBool (b : bool)
| VNum (x : number)
| VStr (s : jsstring)
| VArr (elems : list value)
| VObj (props : list (jsstring * value)).
#[local] Set Elimination Schemes.

(** *** Own properties *)

Fixpoint own (props : list (jsstring * value)) (k : jsstring) : option value :=
  match props with
  | [] => None
  | (k', v) :: rest => if JSString.eqb k' k then Some v else own rest k
  end.

(** Defining a property: an existing key keeps its place and takes the
    new value, a new key goes last.  The list is in order of definition;
    the order in which keys are enumerated (integer keys first) is not
    modelled, properties are only read by key. *)
Fixpoint define (props : list (jsstring * value)) (k : jsstring) (v : value)
  : list (jsstring * value) :=
  match props with
  | [] => [(k, v)]
  | (k', v') :: rest =>
      if JSString.eqb k' k then (k', v) :: rest
      else (k', v') :: define rest k v
  end.

(** The array index a property key denotes: a canonical decimal numeral. *)
Definition array_index (k : jsstring) : option nat :=
  match k with
  | [] => None
  | [48%N] => Some O
  | c :: _ =>
      if (negb (c =? 48)%N && forallb is_digit k)%bool
      then Some (N.to_nat (digits_value k)) else None
  end.

(** [v[k]] for a [v] that is neither [undefined] nor [null].  Only own
    properties, the elements and the length of arrays and strings are
    modelled: every inherited property is a method, and the handler reads
    none of them as data. *)
Definition Get (v : value) (k : jsstring) : value :=
  match v with
  | VObj props =>
      match own props k with Some x => x | None => VUndefined end
  | VArr l =>
      if JSString.eqb k (lit "length") then VNum (of_Z (Z.of_nat (length l)))
      else match array_index k with
           | Some i => nth i l VUndefined
           | None => VUndefined
           end
  | VStr s =>
      if JSString.eqb k (lit "length") then VNum (of_Z (Z.of_nat (length s)))
      else match array_index k with
           | Some i => match nth_error s i with
                       | Some c => VStr [c]
                       | None => VUndefined
                       end
           | None => VUndefined
           end
  | _ => VUndefined
  end.

Definition is_nullish (v : value) : bool :=
  match v with VUndefined | VNull => true | _ => false end.

(** [v?.[k]] *)
Definition opt_get (v : value) (k : jsstring) : value :=
  if is_nullish v then VUndefined else Get v k.

(** [a ?? b] *)
Definition nullish_or (a b : value) : value :=
  if is_nullish a then b else a.

Definition isArray (v : value) : bool :=
  match v with VArr _ => true | _ => false end.

(** *** Coercions *)

Definition ToBoolean (v : value) : bool :=
  match v with
  | VUndefined | VNull => false
  | VBool b => b
  | VNum x => negb (is_zero x || is_nan x)
  | VStr s => match s with [] => false | _ => true end
  | VArr _ | VObj _ => true
  end.

Definition has_own (props : list (jsstring * value)) (k : jsstring) : bool :=
  match own props k with Some _ => true | None => false end.

(** [ToString(v)]; [None] is a thrown TypeError.  An array is joined with
    commas, [undefined] and [null] elements giving the empty string.  An
    object built from JSON answers [[object Object]] through the inherited
    [toString], unless it has an own property of that name: that one is
    never callable, the inherited [valueOf] returns the object itself, and
    the conversion throws. *)
Fixpoint ToString (v : value) : option jsstring :=
  match v with
  | VUndefined => Some (lit "undefined")
  | VNull => Some (lit "null")
  | VBool b => Some (lit (if b then "true" else "false"))
  | VNum x => Some (JSNumber.toString x)
  | VStr s => Some s
  | VArr l =>
      (fix join (l : list value) : option jsstring :=
         match l with
         | [] => Some []
         | x :: l' =>
             match (if is_nullish x then Some [] else ToString x) with
             | None => None
             | Some sx =>
                 match l' with
                 | [] => Some sx
                 | _ => match join l' with
                        | None => None
                        | Some sl => Some (sx ++ lit "," ++ sl)
                        end
                 end
             end
         end) l
  | VObj props =>
      if has_own props (lit "toString") then None
      else Some (lit "[object Object]")
  end.

(** [ToPrimitive(v)], with either hint: for the values at hand both orders
    of [valueOf] and [toString] end in the same string or the same throw. *)
Definition ToPrimitive (v : value) : option value :=
  match v with
  | VArr _ | VObj _ => option_map VStr (ToString v)
  | _ => Some v
  end.

(** *** StringToNumber (ECMA-262 7.1.4.1.1) *)

Fixpoint span (p : N -> bool) (s : jsstring) : jsstring * jsstring :=
  match s with
  | c :: s' => if p c then let '(a, b) := span p s' in (c :: a, b)
               else ([], s)
  | [] => ([], [])
  end.

Record decimal := {
  int_part : jsstring;
  has_dot : bool;
  frac_part : jsstring;
  exp_part : option (bool * jsstring)
}.

Definition scan_sign (s : jsstring) : bool * jsstring :=
  match s with
  | 45%N :: r => (true, r)
  | 43%N :: r => (false, r)
  | _ => (false, s)
  end.

(** Digits, an optional dot and digits, an optional exponent; what is left
    of the text comes second. *)
Definition scan_decimal (s : jsstring) : decimal * jsstring :=
  let '(ip, r1) := span is_digit s in
  let '(dot, fp, r2) :=
    match r1 with
    | 46%N :: r => let '(fp, r2) := span is_digit r in (true, fp, r2)
    | _ => (false, [], r1)
    end in
  let '(ex, r3) :=
    match r2 with
    | c :: r =>
        if ((c =? 101) || (c =? 69))%N then
          let '(neg, r') := scan_sign r in
          let '(ed, r3) := span is_digit r' in (Some (neg, ed), r3)
        else (None, r2)
    | [] => (None, r2)
    end in
  ({| int_part := ip; has_dot := dot; frac_part := fp; exp_part := ex |}, r3).

Definition exp_ok (d : decimal) : bool :=
  match exp_part d with
  | Some (_, []) => false
  | _ => true
  end.

Definition decimal_value (neg : bool) (d : decimal) : number :=
  let e := match exp_part d with
           | Some (eneg, ed) =>
               let e := Z.of_N (digits_value ed) in if eneg then (- e)%Z else e
           | None => 0%Z
           end in
  of_decimal neg (digits_value (int_part d ++ frac_part d))
             (e - Z.of_nat (length (frac_part d))).

Definition digit_in_radix (radix : N) (c : N) : option N :=
  let d := if is_digit c then Some (c - 48)%N
           else if ((97 <=? c) && (c <=? 102))%N then Some (c - 87)%N
           else if ((65 <=? c) && (c <=? 70))%N then Some (c - 55)%N
           else None in
  match d with
  | Some x => if (x <? radix)%N then Some x else None
  | None => None
  end.

Fixpoint radix_value (radix : N) (acc : N) (s : jsstring) : option N :=
  match s with
  | [] => Some acc
  | c :: s' =>
      match digit_in_radix radix c with
      | Some d => radix_value radix (acc * radix + d)%N s'
      | None => None
      end
  end.

Definition radix_prefix (s : jsstring) : option (N * jsstring) :=
  match s with
  | 48%N :: c :: r =>
      if ((c =? 120) || (c =? 88))%N then Some (16%N, r)
      else if ((c =? 111) || (c =? 79))%N then Some (8%N, r)
      else if ((c =? 98) || (c =? 66))%N then Some (2%N, r)
      else None
  | _ => None
  end.

Definition StringToNumber (s : jsstring) : number :=
  match trim s with
  | [] => S754_zero false
  | t =>
      match radix_prefix t with
      | Some (radix, (_ :: _) as ds) =>
          match radix_value radix 0 ds with
          | Some n => of_decimal false n 0
          | None => NaN
          end
      | Some (_, []) => NaN
      | None =>
          let '(neg, r) := scan_sign t in
          if JSString.eqb r (lit "Infinity") then S754_infinity neg
          else
            let '(d, rest) := scan_decimal r in
            match rest, int_part d ++ frac_part d with
            | [], _ :: _ => if exp_ok d then decimal_value neg d else NaN
            | _, _ => NaN
            end
      end
  end.

(** [ToNumber(v)]; [None] is the TypeError of [ToPrimitive]. *)
Definition ToNumber (v : value) : option number :=
  match ToPrimitive v with
  | None => None
  | Some p =>
      Some match p with
           | VUndefined => NaN
           | VNull => S754_zero false
           | VBool b => if b then of_Z 1 else S754_zero false
           | VNum x => x
           | VStr s => StringToNumber s
           | VArr _ | VObj _ => NaN
           end
  end.

(** *** Relational and equality operators against a Number *)

(** IsLessThan on two Numbers: [None] is the undefined of a NaN operand. *)
Definition lessThan (x y : number) : option bool :=
  match SFcompare x y with
  | Some Lt => Some true
  | Some _ => Some false
  | None => None
  end.

(** [v < y] and [v >= y] for a Number [y]; the outer [None] is a throw. *)
Definition lt (v : value) (y : number) : option bool :=
  match ToNumber v with
  | None => None
  | Some x => Some match lessThan x y with Some r => r | None => false end
  end.

Definition ge (v : value) (y : number) : option bool :=
  match ToNumber v with
  | None => None
  | Some x => Some match lessThan x y with Some r => negb r | None => false end
  end.

(** [v === y] for a Number [y]. *)
Definition strict_equals (v : value) (y : number) : bool :=
  match v with
  | VNum x => JSNumber.eqb x y
  | _ => false
  end.

End JSValue.

(** ** JSON.parse (ECMA-262 25.5.1, ECMA-404) *)

Module JSON.
Import JSString JSNumber JSValue.

(** The parser reads the text one code unit at a time.  It keeps the
    containers that are still open, innermost first, and what it is in
    the middle of. *)
Inductive container :=
| CArr (elems_rev : list value)
| CObj (props : list (jsstring * value)) (key : option jsstring).

Inductive literal := LTrue | LFalse | LNull.

Definition literal_text (l : literal) : jsstring :=
  match l with
  | LTrue => lit "true"
  | LFalse => lit "false"
  | LNull => lit "null"
  end.

Definition literal_value (l : literal) : value :=
  match l with
  | LTrue => VBool true
  | LFalse => VBool false
  | LNull => VNull
  end.

Inductive mode :=
| Value                 (* a value must start here *)
| ArrStart              (* after '[': a value or ']' *)
| ObjStart              (* after '{': a key or '}' *)
| ObjKey                (* after ',' in an object: a key *)
| Colon                 (* after a key *)
| After                 (* after a value inside a container *)
| Done (v : value)      (* the top-level value is complete *)
| InStr (is_key : bool) (acc_rev : jsstring)
| InEsc (is_key : bool) (acc_rev : jsstring)
| InUni (is_key : bool) (acc_rev : jsstring) (hex : list N)
| InNum (tok_rev : jsstring)
| InLit (l : literal) (seen : nat)
| Err.

Definition state := (list container * mode)%type.

Definition init : state := ([], Value).

Definition is_ws (c : N) : bool :=
  ((c =? 32) || (c =? 9) || (c =? 10) || (c =? 13))%N.

Definition is_num_char (c : N) : bool :=
  (is_digit c || (c =? 45) || (c =? 43) || (c =? 46) || (c =? 101) || (c =? 69))%N.

(** The Number a JSON number token denotes, when it is one. *)
Definition number_value (tok : jsstring) : option number :=
  let '(neg, r) := match tok with
                   | 45%N :: r => (true, r)
                   | _ => (false, tok)
                   end in
  let '(d, rest) := scan_decimal r in
  let int_ok := match int_part d with
                | [] => false
                | [_] => true
                | c :: _ => negb (c =? 48)%N
                end in
  let frac_ok := match has_dot d, frac_part d with
                 | true, [] => false
                 | _, _ => true
                 end in
  match rest with
  | [] => if (int_ok && frac_ok && exp_ok d)%bool
          then Some (decimal_value neg d) else None
  | _ => None
  end.

(** A value is complete: it goes into the innermost open container, or is
    the result. *)
Definition complete (stack : list container) (v : value) : state :=
  match stack with
  | [] => ([], Done v)
  | CArr es :: st => (CArr (v :: es) :: st, After)
  | CObj props (Some k) :: st => (CObj (define props k v) None :: st, After)
  | CObj _ None :: _ => (stack, Err)
  end.

Definition close_array (stack : list container) : state :=
  match stack with
  | CArr es :: st => complete st (VArr (rev es))
  | _ => (stack, Err)
  end.

Definition close_object (stack : list container) : state :=
  match stack with
  | CObj props None :: st => complete st (VObj props)
  | _ => (stack, Err)
  end.

Definition start_value (stack : list container) (c : N) : state :=
  if (c =? 34)%N then (stack, InStr false [])
  else if (c =? 123)%N then (CObj [] None :: stack, ObjStart)
  else if (c =? 91)%N then (CArr [] :: stack, ArrStart)
  else if (c =? 116)%N then (stack, InLit LTrue 1)
  else if (c =? 102)%N then (stack, InLit LFalse 1)
  else if (c =? 110)%N then (stack, InLit LNull 1)
  else if (is_digit c || (c =? 45)%N)%bool then (stack, InNum [c])
  else (stack, Err).

(** One code unit between tokens. *)
Definition step_struct (st : state) (c : N) : state :=
  let '(stack, m) := st in
  match m with
  | Value => if is_ws c then st else start_value stack c
  | ArrStart =>
      if is_ws c then st
      else if (c =? 93)%N then close_array stack
      else start_value stack c
  | ObjStart =>
      if is_ws c then st
      else if (c =? 34)%N then (stack, InStr true [])
      else if (c =? 125)%N then close_object stack
      else (stack, Err)
  | ObjKey =>
      if is_ws c then st
      else if (c =? 34)%N then (stack, InStr true [])
      else (stack, Err)
  | Colon =>
      if is_ws c then st
      else if (c =? 58)%N then (stack, Value)
      else (stack, Err)
  | After =>
      if is_ws c then st
      else if (c =? 44)%N then
        match stack with
        | CArr _ :: _ => (stack, Value)
        | CObj _ _ :: _ => (stack, ObjKey)
        | [] => (stack, Err)
        end
      else if (c =? 93)%N then close_array stack
      else if (c =? 125)%N then close_object stack
      else (stack, Err)
  | Done _ => if is_ws c then st else (stack, Err)
  | _ => (stack, Err)
  end.

Definition end_string (stack : list container) (is_key : bool)
           (s : jsstring) : state :=
  if is_key then
    match stack with
    | CObj props _ :: st => (CObj props (Some s) :: st, Colon)
    | _ => (stack, Err)
    end
  else complete stack (VStr s).

Definition escape (c : N) : option N :=
  if ((c =? 34) || (c =? 92) || (c =? 47))%N then Some c
  else if (c =? 98)%N then Some 8%N
  else if (c =? 102)%N then Some 12%N
  else if (c =? 110)%N then Some 10%N
  else if (c =? 114)%N then Some 13%N
  else if (c =? 116)%N then Some 9%N
  else None.

Definition step (st : state) (c : N) : state :=
  let '(stack, m) := st in
  match m with
  | InStr k acc =>
      if (c =? 34)%N then end_string stack k (rev acc)
      else if (c =? 92)%N then (stack, InEsc k acc)
      else if (c <? 32)%N then (stack, Err)
      else (stack, InStr k (c :: acc))
  | InEsc k acc =>
      if (c =? 117)%N then (stack, InUni k acc [])
      else match escape c with
           | Some e => (stack, InStr k (e :: acc))
           | None => (stack, Err)
           end
  | InUni k acc hex =>
      match digit_in_radix 16 c with
      | Some d =>
          match hex with
          | [a; b; e] =>
              (stack, InStr k ((((a * 16 + b) * 16 + e) * 16 + d)%N :: acc))
          | _ => (stack, InUni k acc (hex ++ [d]))
          end
      | None => (stack, Err)
      end
  | InNum tok =>
      if is_num_char c then (stack, InNum (c :: tok))
      else match number_value (rev tok) with
           | Some x => step_struct (complete stack (VNum x)) c
           | None => (stack, Err)
           end
  | InLit l seen =>
      match nth_error (literal_text l) seen with
      | Some r =>
          if (c =? r)%N then
            if (S seen =? length (literal_text l))%nat
            then complete stack (literal_value l)
            else (stack, InLit l (S seen))
          else (stack, Err)
      | None => (stack, Err)
      end
  | Err => st
  | _ => step_struct st c
  end.

(** The end of the text. *)
Definition finish (st : state) : option value :=
  match st with
  | ([], Done v) => Some v
  | ([], InNum tok) => option_map VNum (number_value (rev tok))
  | _ => None
  end.

(** [JSON.parse(text)]; [None] is the thrown SyntaxError. *)
Definition parse (text : jsstring) : option value :=
  finish (fold_left step text init).

End JSON.

(** ** The [/smart-search] handler *)

Module SmartSearch.
Import JSString JSNumber JSValue.

(** *** What the handler exchanges with the outside *)

(** The object built for every catalog hit. *)
Record CandidateSong := {
  title : value;
  id : value;
  artist : value;
  album : value;
  language : value;
  year : value;
  playCount : value;
  image : value;
  downloadUrls : value
}.

(** The projection of a candidate that is shown to the oracle. *)
Module ForAI.
Record t := {
  title : value;
  album : value;
  artist : value;
  language : value;
  year : value;
  playCount : value
}.
End ForAI.

(** The two prompts, by what is spliced into their fixed text:
    [JSON.stringify(userInput)] in the first, [userInput] converted to a
    string and [JSON.stringify(FilteredSongsForAI)] in the second. *)
Inductive prompt :=
| SuggestPrompt (userInput : value)
| FilterPrompt (userInput : jsstring) (FilteredSongsForAI : list ForAI.t).

(** The calls the handler makes: [generateContent(prompt)] and
    [fetch(urlMusic + "/api/search/songs?query=" + query)]. *)
Inductive event :=
| Generate (p : prompt)
| Fetch (query : jsstring).

(** How one catalog search ends: [fetch] rejects, or it resolves to a
    response with its [ok] flag and what [response.json()] gives ([None]
    when that rejects). *)
Inductive fetch_result :=
| FetchThrows
| Response (ok : bool) (data : option value).

(** The outside world of one request: the text of each oracle answer
    ([None] when the call throws) and the outcome of the search issued for
    the title at each position. *)
Record world := {
  suggest_answer : option jsstring;
  catalog : nat -> fetch_result;
  filter_answer : option jsstring
}.

Inductive body :=
| Error (error : string)
| SuggestedSongs (suggestedSongs : list CandidateSong).

Record response := { status : nat; json : body }.

(** *** Control flow: the trace of calls, and an early [return res...] *)

Definition handler (A : Type) : Type := (list event * (A + response))%type.

Definition ret {A} (a : A) : handler A := ([], inl a).

Definition bind {A B} (c : handler A) (k : A -> handler B) : handler B :=
  match c with
  | (t, inl a) => let '(t', r) := k a in (t ++ t', r)
  | (t, inr r) => (t, inr r)
  end.

Definition emit (e : event) : handler unit := ([e], inl tt).

(** [return res.status(s).json({ error })] *)
Definition fail {A} (s : nat) (error : string) : handler A :=
  ([], inr {| status := s; json := Error error |}).

(** An exception reaching the handler's outer [catch]. *)
Definition throw {A} : handler A :=
  fail 500 "Error generating song suggestions".

Definition run (c : handler response) : list event * response :=
  match c with
  | (t, inl r) => (t, r)
  | (t, inr r) => (t, r)
  end.

Notation "x <- c ;; k" := (bind c (fun x => k))
  (at level 61, c at next level, right associativity).
Notation "c ;;; k" := (bind c (fun _ => k))
  (at level 61, right associativity).

(** [await model.generateContent(prompt)] followed by
    [response.response.text()]. *)
Definition generateContent (p : prompt) (answer : option jsstring)
  : handler jsstring :=
  emit (Generate p) ;;;
  match answer with
  | Some text => ret text
  | None => throw
  end.

(** *** The stages *)

(** [.replace(/```(json)?\n/g, "").replace(/```/g, "").trim()] *)
Definition clean (output : jsstring) : jsstring :=
  trim (remove_all fence_at (remove_all fence_open_at output)).

Definition placeholderImage : value :=
  VStr (lit "https://via.placeholder.com/150").

(** [v?.k] and [a ?? b] as they are written in the source. *)
Notation "v ?. k" := (opt_get v (lit k%string))
  (at level 20, left associativity, format "v ?. k").
Notation "a ?? b" := (nullish_or a b) (at level 40, no associativity).

(** The object literal of the inner [map]: every read is an optional
    chain from [songData], every field but [id] has a [??] default. *)
Definition toCandidate (songData : value) : CandidateSong := {|
  title := songData?."name" ?? VStr (lit "Unknown Song");
  id := songData?."id";
  artist := songData?."artists"?."primary"?."0"?."name"
            ?? VStr (lit "Unknown Artist");
  album := songData?."album"?."name" ?? VStr (lit "Unknown Album");
  language := songData?."language" ?? VStr (lit "Unknown Language");
  year := songData?."year" ?? VStr (lit "Unknown Year");
  playCount := songData?."playCount" ?? VNum (of_Z 0);
  image := songData?."image"?."2"?."url" ?? placeholderImage;
  downloadUrls := songData?."downloadUrl" ?? VArr []
|}.

(** What the callback returns once [response.json()] has given [data]. *)
Definition candidates_of (data : value) : list CandidateSong :=
  if ToBoolean data then
    if ToBoolean (Get data (lit "data")) then
      match Get (Get data (lit "data")) (lit "results") with
      | VArr results => map toCandidate results
      | _ => []
      end
    else []
  else [].

(** The [async (song) => ...] callback for the title at position [i]:
    [None] is its [null]. *)
Definition search (w : world) (i : nat) (song : value)
  : list event * option (list CandidateSong) :=
  match ToString song with
  | None => ([], None)
  | Some s =>
      match encodeURIComponent s with
      | None => ([], None)
      | Some query =>
          ([Fetch query],
           match catalog w i with
           | FetchThrows => None
           | Response false _ => None
           | Response true None => None
           | Response true (Some data) => Some (candidates_of data)
           end)
      end
  end.

(** [await Promise.all(suggestions.songs.map(...))]: the results keep the
    positions of the titles. *)
Fixpoint search_from (w : world) (i : nat) (songs : list value)
  : list event * list (option (list CandidateSong)) :=
  match songs with
  | [] => ([], [])
  | song :: rest =>
      let '(t, r) := search w i song in
      let '(ts, rs) := search_from w (S i) rest in
      (t ++ ts, r :: rs)
  end.

Definition search_all (w : world) (songs : list value)
  : handler (list (option (list CandidateSong))) :=
  let '(t, rs) := search_from w 0 songs in (t, inl rs).

(** [FilterSongs.flat()]: an array gives its elements, a [null] stays. *)
Definition flat (FilterSongs : list (option (list CandidateSong)))
  : list (option CandidateSong) :=
  flat_map (fun r => match r with
                     | Some l => map Some l
                     | None => [None]
                     end) FilterSongs.

Definition threshold : number := of_Z 90000.

(** [.filter((song) => song !== null && song.playCount >= 90000)];
    [None] when a comparison throws. *)
Fixpoint filter_popular (songs : list (option CandidateSong))
  : option (list CandidateSong) :=
  match songs with
  | [] => Some []
  | None :: rest => filter_popular rest
  | Some song :: rest =>
      match ge (playCount song) threshold with
      | None => None
      | Some keep =>
          match filter_popular rest with
          | None => None
          | Some l => Some (if keep then song :: l else l)
          end
      end
  end.

Definition project (song : CandidateSong) : ForAI.t := {|
  ForAI.title := title song;
  ForAI.album := album song;
  ForAI.artist := artist song;
  ForAI.language := language song;
  ForAI.year := year song;
  ForAI.playCount := playCount song
|}.

(** [arr.filter((x, index) => f x index)] *)
Fixpoint filter_indexed {A} (f : A -> nat -> bool) (index : nat) (l : list A)
  : list A :=
  match l with
  | [] => []
  | x :: l' =>
      if f x index then x :: filter_indexed f (S index) l'
      else filter_indexed f (S index) l'
  end.

(** [finalFilteredSongs.filter((song, index) => mySuggestion[index] === 1)] *)
Definition actuallyFinalFilteredSongs (finalFilteredSongs : list CandidateSong)
           (mySuggestion : list value) : list CandidateSong :=
  filter_indexed
    (fun _ index => strict_equals (nth index mySuggestion VUndefined) (of_Z 1))
    0 finalFilteredSongs.

(** Lines 251-272: from the parsed answer of the second oracle call to the
    response. *)
Definition respond (finalFilteredSongs : list CandidateSong)
           (filterSuggestions : value) : handler response :=
  if negb (ToBoolean filterSuggestions) then
    fail 500 "Unexpected filter JSON format"
  else
    match Get filterSuggestions (lit "mySuggestion") with
    | VArr mySuggestion =>
        if negb (length mySuggestion =? length finalFilteredSongs) then
          fail 500 "Suggestion array length mismatch"
        else
          ret {| status := 200;
                 json := SuggestedSongs
                           (actuallyFinalFilteredSongs finalFilteredSongs
                                                       mySuggestion) |}
    | _ => fail 500 "Unexpected filter JSON format"
    end.

(** Lines 198-272: from the thresholded candidates on. *)
Definition judge (w : world) (userInput : value)
           (finalFilteredSongs : list CandidateSong) : handler response :=
  let FilteredSongsForAI := map project finalFilteredSongs in
  text <- match ToString userInput with
          | Some s => ret s
          | None => throw
          end ;;
  filterOutput <- generateContent (FilterPrompt text FilteredSongsForAI)
                                  (filter_answer w) ;;
  match JSON.parse (clean filterOutput) with
  | None => fail 500 "Failed to parse filter response from AI"
  | Some filterSuggestions => respond finalFilteredSongs filterSuggestions
  end.

(** Lines 150-272: from the parsed answer of the first oracle call on. *)
Definition resolve (w : world) (userInput : value) (suggestions : value)
  : handler response :=
  if negb (ToBoolean suggestions) then fail 500 "Unexpected JSON format"
  else
    match Get suggestions (lit "songs") with
    | VArr songs =>
        FilterSongs <- search_all w songs ;;
        match filter_popular (flat FilterSongs) with
        | None => throw
        | Some finalFilteredSongs => judge w userInput finalFilteredSongs
        end
    | _ => fail 500 "Unexpected JSON format"
    end.

(** Lines 92-272: the pipeline for a given [userInput]. *)
Definition pipeline (w : world) (userInput : value) : handler response :=
  output <- generateContent (SuggestPrompt userInput) (suggest_answer w) ;;
  match JSON.parse (clean output) with
  | None => fail 500 "Failed to parse response from AI"
  | Some suggestions => resolve w userInput suggestions
  end.

(** [req.body.songs || []]; reading [songs] off an absent body throws. *)
Definition userInput_of (req_body : value) : handler value :=
  if is_nullish req_body then throw
  else
    let songs := Get req_body (lit "songs") in
    ret (if ToBoolean songs then songs else VArr []).

(** [app.post("/smart-search", async (req, res) => ...)], behind the API
    key check: the calls made and the response sent. *)
Definition smart_search (w : world) (req_body : value)
  : list event * response :=
  run (userInput <- userInput_of req_body ;; pipeline w userInput).

(** *** Vocabulary of the properties *)

(** The threshold test says yes. *)
Definition popular (song : CandidateSong) : bool :=
  match ge (playCount song) threshold with
  | Some true => true
  | _ => false
  end.

(** A value that is neither [undefined] nor [null]. *)
Definition defined (v : value) : bool := negb (is_nullish v).

(** The fields of a candidate that are written with a [??] default. *)
Definition defaulted_fields (c : CandidateSong) : list value :=
  [title c; artist c; album c; language c; year c; playCount c; image c;
   downloadUrls c].

Definition fields (c : CandidateSong) : list value :=
  id c :: defaulted_fields c.

(** A candidate paired with a flag that is the number 1. *)
Definition flagged (p : CandidateSong * value) : bool :=
  strict_equals (snd p) (of_Z 1).

(** The candidates a title brought: none for a [null]. *)
Definition hits (r : option (list CandidateSong)) : list CandidateSong :=
  match r with
  | Some l => l
  | None => []
  end.

(** [data && data.data && Array.isArray(data.data.results)] *)
Definition expected_shape (data : value) : bool :=
  ToBoolean data && ToBoolean (Get data (lit "data"))
  && isArray (Get (Get data (lit "data")) (lit "results")).






(** A payload inside a Markdown code fence, with or without the [json]
    tag on the opening line. *)
Definition fenced (tag : bool) (payload : jsstring) : jsstring :=
  fence ++ (if tag then lit "json" else []) ++ [10%N]
  ++ payload ++ [10%N] ++ fence.

(** The request on [req_body] in the world [w] gets past the catalog
    stage: [songs] are the titles of the first answer,
    [finalFilteredSongs] the thresholded candidates (line 195). *)
Inductive gathers (w : world) (req_body userInput : value)
          (songs : list value) (finalFilteredSongs : list CandidateSong)
  : Prop :=
| Gathers (output : jsstring) (suggestions : value) :
    userInput_of req_body = ret userInput ->
    suggest_answer w = Some output ->
    JSON.parse (clean output) = Some suggestions ->
    ToBoolean suggestions = true ->
    Get suggestions (lit "songs") = VArr songs ->
    filter_popular (flat (snd (search_from w 0 songs)))
      = Some finalFilteredSongs ->
    gathers w req_body userInput songs finalFilteredSongs.

(** The request gets a parsed answer [filterSuggestions] from the second
    oracle call for the candidates [finalFilteredSongs] (line 251). *)
Inductive judges (w : world) (req_body : value)
          (finalFilteredSongs : list CandidateSong)
          (filterSuggestions : value) : Prop :=
| Judges (userInput : value) (songs : list value)
         (text filterOutput : jsstring) :
    gathers w req_body userInput songs finalFilteredSongs ->
    ToString userInput = Some text ->
    filter_answer w = Some filterOutput ->
    JSON.parse (clean filterOutput) = Some filterSuggestions ->
    judges w req_body finalFilteredSongs filterSuggestions.

End SmartSearch.

(** ** Scenarios *)

Module Scenario.
Import JSString JSNumber JSValue SmartSearch.

(** A text of the source or of the outside, written with ['] for the
    double quote. *)
Definition text (s : string) : jsstring :=
  map (fun c => if (c =? 39)%N then 34%N else c) (lit s).

Definition parsed (s : string) : value :=
  match JSON.parse (text s) with
  | Some v => v
  | None => VUndefined
  end.

Definition found (s : string) : fetch_result := Response true (Some (parsed s)).

(** The user asks for one song; the catalog has a popular and an obscure
    match; the oracle keeps the popular one. *)
Definition shape_of_you : world := {|
  suggest_answer := Some (text "{'songs': ['Shape of You - Ed Sheeran']}");
  catalog := fun _ =>
    found "{'data': {'results': [
             {'id': 'a1', 'name': 'Shape of You', 'playCount': 500000},
             {'id': 'a2', 'name': 'Shape of You (Cover)', 'playCount': 1000}]}}";
  filter_answer := Some (text "{'mySuggestion': [1]}")
|}.

Definition shape_of_you_request : value := parsed "{'songs': 'Shape of You'}".

(** The payload of the first answer of [one_search_down]. *)
Definition titles_payload : jsstring :=
  text "{'songs': ['Believer', 'Happier', 'Thunder']}".

(** Three titles; the search for the second one answers 503.  The first
    and the third title both find the song [b1]. *)
Definition one_search_down : world := {|
  suggest_answer :=
    Some (fenced true titles_payload);
  catalog := fun i =>
    match i with
    | 0 => found "{'data': {'results': [
                    {'id': 'b1', 'name': 'Believer', 'playCount': 950000},
                    {'id': 'b2', 'name': 'Believer (Live)', 'playCount': 90000}]}}"
    | 1 => Response false None
    | _ => found "{'data': {'results': [
                    {'id': 't1', 'name': 'Thunder', 'playCount': '120000'},
                    {'id': 'b1', 'name': 'Believer', 'playCount': 950000},
                    {'id': 't2', 'name': 'Thunder (Demo)', 'playCount': 89999}]}}"
    end;
  filter_answer := Some (text "{'mySuggestion': [1, 0, 1, 0]}")
|}.

(** The same, but the oracle answers three flags for four candidates. *)
Definition short_vector : world := {|
  suggest_answer := suggest_answer one_search_down;
  catalog := catalog one_search_down;
  filter_answer := Some (text "{'mySuggestion': [1, 0, 1]}")
|}.

(** Flags that are not the number 1. *)
Definition odd_flags : world := {|
  suggest_answer := suggest_answer one_search_down;
  catalog := catalog one_search_down;
  filter_answer := Some (text "{'mySuggestion': ['1', 2, 1, null]}")
|}.






(** A catalog record without an [id], and one whose [id] is [null]. *)
Definition anonymous : world := {|
  suggest_answer := Some (text "{'songs': ['Believer']}");
  catalog := fun _ =>
    found "{'data': {'results': [{'name': 'Believer', 'playCount': 950000},
                                 {'id': null, 'playCount': 950000}]}}";
  filter_answer := Some (text "{'mySuggestion': [1, 1]}")
|}.

Definition empty_request : value := parsed "{}".

(** A catalog record whose [id] is [null], and one with no property. *)
Definition null_id_record : value :=
  parsed "{'id': null, 'name': 'Believer', 'playCount': 950000}".
Definition empty_record : value := VObj [].


(** The candidate that is left in [shape_of_you]. *)
Definition shape : CandidateSong :=
  toCandidate (parsed "{'id': 'a1', 'name': 'Shape of You', 'playCount': 500000}").

(** The candidates of [one_search_down]. *)
Definition believer : CandidateSong :=
  toCandidate (parsed "{'id': 'b1', 'name': 'Believer', 'playCount': 950000}").
Definition believer_live : CandidateSong :=
  toCandidate (parsed "{'id': 'b2', 'name': 'Believer (Live)', 'playCount': 90000}").
Definition thunder : CandidateSong :=
  toCandidate (parsed "{'id': 't1', 'name': 'Thunder', 'playCount': '120000'}").

(** A JSON string made of three backticks. *)
Definition backticks : jsstring := 34%N :: fence ++ [34%N].

(** What a run in the world [w] works with: the titles of the first
    answer, the thresholded candidates, the parsed second answer and its
    flags. *)
Definition titles (w : world) : list value :=
  match suggest_answer w with
  | Some output =>
      match JSON.parse (clean output) with
      | Some suggestions =>
          match Get suggestions (lit "songs") with
          | VArr songs => songs
          | _ => []
          end
      | None => []
      end
  | None => []
  end.

Definition candidates (w : world) : list CandidateSong :=
  match filter_popular (flat (snd (search_from w 0 (titles w)))) with
  | Some l => l
  | None => []
  end.

Definition verdict (w : world) : value :=
  match filter_answer w with
  | Some output =>
      match JSON.parse (clean output) with
      | Some v => v
      | None => VUndefined
      end
  | None => VUndefined
  end.

Definition flags (w : world) : list value :=
  match Get (verdict w) (lit "mySuggestion") with
  | VArr l => l
  | _ => []
  end.

End Scenario.

(** ** The API key check and the [/filter-songs] endpoint *)

Module Routes.
Import JSString JSNumber JSValue SmartSearch.

(** [checkApiKey] (lines 25-31), on the [x-api-key] header of the request
    and [process.env.CLIENT_API_KEY], each a string or [undefined].  [None]
    is [next()]; otherwise the status and the error of the response it
    sends. *)
Definition checkApiKey (CLIENT_API_KEY apiKey : option jsstring)
  : option (nat * string) :=
  match apiKey with
  | Some (c :: key) =>
      match CLIENT_API_KEY with
      | Some secret =>
          if JSString.eqb (c :: key) secret then None
          else Some (403, "Forbidden: Invalid API key."%string)
      | None => Some (403, "Forbidden: Invalid API key."%string)
      end
  | _ => Some (403, "Forbidden: Invalid API key."%string)
  end.

(** [POST /smart-search] behind [app.use("/smart-search", checkApiKey)],
    for a request whose body [express.json()] has read. *)
Definition post_smart_search (CLIENT_API_KEY : option jsstring) (w : world)
           (apiKey : option jsstring) (req_body : value)
  : list event * response :=
  match checkApiKey CLIENT_API_KEY apiKey with
  | Some (s, error) => ([], {| status := s; json := Error error |})
  | None => smart_search w req_body
  end.

(** The calls of a trace that are catalog searches. *)
Definition is_fetch (e : event) : bool :=
  match e with
  | Fetch _ => true
  | Generate _ => false
  end.

(** The errors [/smart-search] answers with. *)
Definition error_messages : list string :=
  ["Error generating song suggestions";
   "Failed to parse response from AI";
   "Unexpected JSON format";
   "Failed to parse filter response from AI";
   "Unexpected filter JSON format";
   "Suggestion array length mismatch"]%string.

(** [a] is [b] with some code units left out. *)
Inductive subsequence : jsstring -> jsstring -> Prop :=
| subsequence_nil : subsequence [] []
| subsequence_keep c a b : subsequence a b -> subsequence (c :: a) (c :: b)
| subsequence_drop c a b : subsequence a b -> subsequence a (c :: b).

End Routes.

(** The single-stage endpoint (lines 50-86). *)
Module FilterSongs.
Import JSString JSNumber JSValue.

(** [model.generateContent(prompt)], the prompt ending in
    [JSON.stringify(songs)]. *)
Inductive call :=
| Generate (songs : value).

Inductive body :=
| Error (error : string)
| SuggestedSongs (suggestedSongs : value).

Record response := { status : nat; json : body }.

(** The response of the [catch]. *)
Definition failure : response :=
  {| status := 500; json := Error "Error generating song suggestions" |}.

(** [app.post("/filter-songs", async (req, res) => ...)]: [answer] is the
    text of the oracle's answer, [None] when the call throws. *)
Definition filter_songs (answer : option jsstring) (req_body : value)
  : list call * response :=
  if is_nullish req_body then ([], failure)
  else
    let songs := Get req_body (lit "songs") in
    ([Generate (if ToBoolean songs then songs else VArr [])],
     match answer with
     | None => failure
     | Some output =>
         match JSON.parse (SmartSearch.clean output) with
         | None => failure
         | Some suggestions =>
             {| status := 200; json := SuggestedSongs suggestions |}
         end
     end).

(** [POST /filter-songs] behind [app.use("/filter-songs", checkApiKey)]. *)
Definition post_filter_songs (CLIENT_API_KEY : option jsstring)
           (answer apiKey : option jsstring) (req_body : value)
  : list call * response :=
  match Routes.checkApiKey CLIENT_API_KEY apiKey with
  | Some (s, error) => ([], {| status := s; json := Error error |})
  | None => filter_songs answer req_body
  end.

End FilterSongs.

(** ** The ways a request ends *)

Module Runs.
Import JSString JSNumber JSValue SmartSearch.

(** The request gets a title list [songs] out of the first oracle answer
    (line 150 passed). *)
Inductive proposes (w : world) (req_body userInput : value)
          (songs : list value) : Prop :=
| Proposes (output : jsstring) (suggestions : value) :
    userInput_of req_body = ret userInput ->
    suggest_answer w = Some output ->
    JSON.parse (clean output) = Some suggestions ->
    ToBoolean suggestions = true ->
    Get suggestions (lit "songs") = VArr songs ->
    proposes w req_body userInput songs.

Definition failed (error : string) : response :=
  {| status := 500; json := Error error |}.

(** The calls up to the end of the catalog stage, and up to the second
    oracle call. *)
Definition searched (w : world) (userInput : value) (songs : list value)
  : list event :=
  Generate (SuggestPrompt userInput) :: fst (search_from w 0 songs).

Definition asked (w : world) (userInput : value) (songs : list value)
           (text : jsstring) (final : list CandidateSong) : list event :=
  searched w userInput songs
  ++ [Generate (FilterPrompt text (map project final))].

(** Every exit of the handler, in the order of the source, with the calls
    made before it and the response sent at it. *)
Inductive outcome (w : world) (req_body : value)
  : list event -> response -> Prop :=
| body_missing :
    is_nullish req_body = true ->
    outcome w req_body [] (failed "Error generating song suggestions")
| suggest_call_throws userInput :
    userInput_of req_body = ret userInput ->
    suggest_answer w = None ->
    outcome w req_body [Generate (SuggestPrompt userInput)]
            (failed "Error generating song suggestions")
| suggest_unparsable userInput output :
    userInput_of req_body = ret userInput ->
    suggest_answer w = Some output ->
    JSON.parse (clean output) = None ->
    outcome w req_body [Generate (SuggestPrompt userInput)]
            (failed "Failed to parse response from AI")
| suggest_malformed userInput output suggestions :
    userInput_of req_body = ret userInput ->
    suggest_answer w = Some output ->
    JSON.parse (clean output) = Some suggestions ->
    ToBoolean suggestions && isArray (Get suggestions (lit "songs")) = false ->
    outcome w req_body [Generate (SuggestPrompt userInput)]
            (failed "Unexpected JSON format")
| comparison_throws userInput songs :
    proposes w req_body userInput songs ->
    filter_popular (flat (snd (search_from w 0 songs))) = None ->
    outcome w req_body (searched w userInput songs)
            (failed "Error generating song suggestions")
| input_unprintable userInput songs final :
    gathers w req_body userInput songs final ->
    ToString userInput = None ->
    outcome w req_body (searched w userInput songs)
            (failed "Error generating song suggestions")
| filter_call_throws userInput songs final text :
    gathers w req_body userInput songs final ->
    ToString userInput = Some text ->
    filter_answer w = None ->
    outcome w req_body (asked w userInput songs text final)
            (failed "Error generating song suggestions")
| filter_unparsable userInput songs final text filterOutput :
    gathers w req_body userInput songs final ->
    ToString userInput = Some text ->
    filter_answer w = Some filterOutput ->
    JSON.parse (clean filterOutput) = None ->
    outcome w req_body (asked w userInput songs text final)
            (failed "Failed to parse filter response from AI")
| filter_malformed userInput songs final text filterOutput fs :
    gathers w req_body userInput songs final ->
    ToString userInput = Some text ->
    filter_answer w = Some filterOutput ->
    JSON.parse (clean filterOutput) = Some fs ->
    ToBoolean fs && isArray (Get fs (lit "mySuggestion")) = false ->
    outcome w req_body (asked w userInput songs text final)
            (failed "Unexpected filter JSON format")
| vector_misaligned userInput songs final text filterOutput fs vector :
    gathers w req_body userInput songs final ->
    ToString userInput = Some text ->
    filter_answer w = Some filterOutput ->
    JSON.parse (clean filterOutput) = Some fs ->
    Get fs (lit "mySuggestion") = VArr vector ->
    length vector <> length final ->
    outcome w req_body (asked w userInput songs text final)
            (failed "Suggestion array length mismatch")
| songs_suggested userInput songs final text filterOutput fs vector :
    gathers w req_body userInput songs final ->
    ToString userInput = Some text ->
    filter_answer w = Some filterOutput ->
    JSON.parse (clean filterOutput) = Some fs ->
    Get fs (lit "mySuggestion") = VArr vector ->
    length vector = length final ->
    outcome w req_body (asked w userInput songs text final)
            {| status := 200;
               json := SuggestedSongs
                         (actuallyFinalFilteredSongs final vector) |}.

(** An answer of the oracle put inside a code fence, and an answer without
    a run of three backticks. *)
Definition in_fence (tag : bool) (answer : option jsstring)
  : option jsstring :=
  option_map (fenced tag) answer.

Definition fence_free (answer : option jsstring) : bool :=
  match answer with
  | Some output => negb (has_fence output)
  | None => true
  end.

(** The world [w] with both answers of the oracle inside code fences. *)
Definition with_fences (first second : bool) (w : world) : world := {|
  suggest_answer := in_fence first (suggest_answer w);
  catalog := catalog w;
  filter_answer := in_fence second (filter_answer w)
|}.

End Runs.

(** ** More scenarios *)

Module Edge.
Import JSString JSNumber JSValue SmartSearch Scenario.

(** One of the catalog records has an object with a [toString] property as
    its play count. *)
Definition broken_record : world := {|
  suggest_answer := Some (text "{'songs': ['Believer', 'Thunder']}");
  catalog := fun i =>
    match i with
    | 0 => found "{'data': {'results': [
                    {'id': 'b1', 'name': 'Believer', 'playCount': 950000}]}}"
    | _ => found "{'data': {'results': [
                    {'id': 't1', 'name': 'Thunder',
                     'playCount': {'toString': 1}}]}}"
    end;
  filter_answer := Some (text "{'mySuggestion': [1]}")
|}.

Definition broken : CandidateSong :=
  toCandidate (parsed "{'id': 't1', 'name': 'Thunder',
                        'playCount': {'toString': 1}}").

(** A request whose input cannot be converted to a string. *)
Definition unprintable_request : value := parsed "{'songs': {'toString': 1}}".


(** A title that is half a surrogate pair, and a title that is fine. *)
Definition lone_surrogate : value := VStr [55357%N].

(** The second answer is no JSON. *)
Definition chatty_filter : world := {|
  suggest_answer := suggest_answer one_search_down;
  catalog := catalog one_search_down;
  filter_answer := Some (text "Here are the flags: 1, 0, 1, 0")
|}.

(** Records with two images, and with three. *)
Definition two_entries : list value :=
  [VObj [(lit "url", VStr (lit "small"))];
   VObj [(lit "url", VStr (lit "medium"))]].
Definition three_entries : list value :=
  two_entries ++ [VObj [(lit "url", VStr (lit "large"))]].
Definition two_images : list (jsstring * value) :=
  [(lit "image", VArr two_entries)].
Definition three_images : list (jsstring * value) :=
  [(lit "image", VArr three_entries)].

(** The catalog serves a record with a play count and one without; the
    oracle flags every candidate it is shown. *)
Definition uncounted : world := {|
  suggest_answer := Some (text "{'songs': ['Believer']}");
  catalog := fun _ =>
    found "{'data': {'results': [
             {'id': 'b1', 'name': 'Believer', 'playCount': 950000},
             {'id': 'b3', 'name': 'Believer (Demo)'}]}}";
  filter_answer := Some (text "{'mySuggestion': [1]}")
|}.

Definition uncounted_record : value :=
  VObj [(lit "id", VStr (lit "b3")); (lit "name", VStr (lit "Believer (Demo)"))].

(** A key and a request header. *)
Definition secret : jsstring := lit "s3cret".

(** Answers of the oracle to [/filter-songs]: the object asked for, and a
    number. *)
Definition recommendation : jsstring :=
  text "{'suggestions': [{'name': 'Thunder', 'artist': 'Imagine Dragons',
                          'reason': 'same band'}]}".

Definition recommended : value :=
  VObj [(lit "suggestions",
         VArr [VObj [(lit "name", VStr (lit "Thunder"));
                     (lit "artist", VStr (lit "Imagine Dragons"));
                     (lit "reason", VStr (lit "same band"))]])].

Definition forty_two : jsstring := lit "42".

End Edge.

(** * Properties *)

(** ** Removing code fences *)

Module FenceFacts.
Import JSString.

Lemma starts_with_fence_inv s :
  starts_with fence s = true ->
  exists t, s = backtick :: backtick :: backtick :: t.
Proof.
  unfold fence.
  destruct s as [|a [|b [|c t]]]; cbn [starts_with];
    rewrite ?andb_false_r; try discriminate.
  rewrite andb_true_r.
  intros H; apply andb_prop in H; destruct H as [Ha H].
  apply andb_prop in H; destruct H as [Hb Hc].
  apply N.eqb_eq in Ha, Hb, Hc; subst. now exists t.
Qed.

Lemma starts_with_app_l p q s :
  starts_with (p ++ q) s = true -> starts_with p s = true.
Proof.
  revert s; induction p as [|x p IH]; intros [|y s]; cbn [starts_with app];
    auto.
  intros H; apply andb_prop in H; destruct H as [-> H]; cbn; auto.
Qed.

Lemma fence_at_None s : starts_with fence s = false -> fence_at s = None.
Proof. unfold fence_at; now intros ->. Qed.

Lemma fence_open_at_None s :
  starts_with fence s = false -> fence_open_at s = None.
Proof.
  intros H; unfold fence_open_at.
  destruct (starts_with (fence ++ lit "json" ++ [10%N]) s) eqn:E1.
  - apply starts_with_app_l in E1; congruence.
  - destruct (starts_with (fence ++ [10%N]) s) eqn:E2; auto.
    apply starts_with_app_l in E2; congruence.
Qed.

(** A text without a fence is left as it is by both replacements. *)
Lemma remove_fence_free (m : jsstring -> option nat) s :
  (forall t, starts_with fence t = false -> m t = None) ->
  has_fence s = false -> remove_all m s = s.
Proof.
  intros Hm; unfold remove_all; induction s as [|c s IH];
    cbn [remove_from has_fence]; auto.
  intros H; apply orb_false_elim in H; destruct H as [H1 H2].
  rewrite (Hm (c :: s)) by exact H1. now rewrite IH.
Qed.

Lemma remove_fence_head s :
  head_is backtick (remove_from fence_at 0 s) = true ->
  head_is backtick s = true.
Proof.
  destruct s as [|c s]; cbn [remove_from head_is]; auto.
  unfold fence_at.
  destruct (starts_with fence (c :: s)) eqn:F; cbn [head_is]; auto.
  apply starts_with_fence_inv in F. destruct F as [t F].
  injection F as -> _. reflexivity.
Qed.

Lemma head_is_backtick s :
  head_is backtick s = true -> exists t, s = backtick :: t.
Proof.
  destruct s as [|c s]; cbn [head_is]; try discriminate.
  intros H; apply N.eqb_eq in H; subst; now exists s.
Qed.

(** What is left after the second replacement has no fence. *)
Lemma remove_fence_no_fence k s :
  has_fence (remove_from fence_at k s) = false.
Proof.
  revert k; induction s as [|c s IH]; intros [|k]; cbn [remove_from]; auto.
  unfold fence_at at 1.
  destruct (starts_with fence (c :: s)) eqn:F; auto.
  cbn [has_fence]. rewrite IH, orb_false_r.
  destruct (starts_with fence (c :: remove_from fence_at 0 s)) eqn:G; auto.
  exfalso. apply starts_with_fence_inv in G. destruct G as [t G].
  injection G as -> G.
  assert (H1 : head_is backtick s = true)
    by (apply remove_fence_head; rewrite G; reflexivity).
  apply head_is_backtick in H1. destruct H1 as [s1 ->].
  cbn [remove_from] in G. unfold fence_at at 1 in G.
  destruct (starts_with fence (backtick :: s1)) eqn:F1.
  - apply starts_with_fence_inv in F1. destruct F1 as [t1 F1].
    injection F1 as ->. discriminate F.
  - injection G as G.
    assert (H2 : head_is backtick s1 = true)
      by (apply remove_fence_head; rewrite G; reflexivity).
    apply head_is_backtick in H2. destruct H2 as [s2 ->]. discriminate F.
Qed.

(** *** [trim] *)

Lemma trimStart_split s :
  exists lead, s = lead ++ trimStart s /\ forallb is_white_space lead = true.
Proof.
  induction s as [|c s [lead [E H]]]; cbn [trimStart].
  - now exists [].
  - destruct (is_white_space c) eqn:W.
    + exists (c :: lead); cbn [app forallb]; rewrite W, H; split; auto.
      now rewrite <- E.
    + now exists [].
Qed.

Lemma trimEnd_split s :
  exists tail, s = trimEnd s ++ tail /\ forallb is_white_space tail = true.
Proof.
  induction s as [|c s [tail [E H]]]; cbn [trimEnd].
  - now exists [].
  - destruct (trimEnd s) as [|d t] eqn:T.
    + destruct (is_white_space c) eqn:W.
      * exists (c :: tail); cbn [app forallb] in *; rewrite W, H; split;
          auto. now rewrite <- E.
      * exists tail; cbn [app] in *; split; auto. now rewrite <- E.
    + exists tail; cbn [app] in *; split; auto. now rewrite <- E.
Qed.

Lemma starts_with_app_r p a b :
  starts_with p a = true -> starts_with p (a ++ b) = true.
Proof.
  revert a; induction p as [|x p IH]; intros [|y a]; cbn [starts_with app];
    auto; try discriminate.
  intros H; apply andb_prop in H; destruct H as [-> H]; cbn; auto.
Qed.

Lemma has_fence_app_l a b :
  has_fence (a ++ b) = false -> has_fence a = false.
Proof.
  induction a as [|c a IH]; cbn [has_fence app]; auto.
  intros H; apply orb_false_elim in H; destruct H as [H1 H2].
  rewrite (IH H2), orb_false_r.
  destruct (starts_with fence (c :: a)) eqn:F; auto.
  apply (starts_with_app_r _ _ b) in F. cbn [app] in F. congruence.
Qed.

Lemma has_fence_app_r a b :
  has_fence (a ++ b) = false -> has_fence b = false.
Proof.
  induction a as [|c a IH]; cbn [has_fence app]; auto.
  intros H; apply orb_false_elim in H; destruct H as [_ H2]; auto.
Qed.

Lemma has_fence_trim s : has_fence s = false -> has_fence (trim s) = false.
Proof.
  intros H; unfold trim.
  destruct (trimStart_split s) as [lead [E _]].
  destruct (trimEnd_split (trimStart s)) as [tail [E' _]].
  rewrite E in H. apply has_fence_app_r in H.
  rewrite E' in H. now apply has_fence_app_l in H.
Qed.

Lemma head_white_trimStart s : head_white (trimStart s) = false.
Proof.
  induction s as [|c s IH]; cbn [trimStart]; auto.
  destruct (is_white_space c) eqn:W; auto.
Qed.

Lemma head_white_trimEnd s :
  head_white s = false -> head_white (trimEnd s) = false.
Proof.
  destruct s as [|c s]; cbn [trimEnd head_white]; auto.
  intros W; rewrite W. now destruct (trimEnd s).
Qed.

Lemma trimStart_fixed s : head_white s = false -> trimStart s = s.
Proof. destruct s as [|c s]; cbn [trimStart head_white]; auto.
       now intros ->. Qed.

Lemma trimEnd_cons c s :
  trimEnd (c :: s) = match trimEnd s with
                     | [] => if is_white_space c then [] else [c]
                     | x :: t => c :: x :: t
                     end.
Proof. reflexivity. Qed.

Lemma trimEnd_idempotent s : trimEnd (trimEnd s) = trimEnd s.
Proof.
  induction s as [|c s IH]; auto.
  rewrite trimEnd_cons.
  destruct (trimEnd s) as [|d t] eqn:T.
  - destruct (is_white_space c) eqn:W; auto.
    rewrite trimEnd_cons. cbn [trimEnd]. now rewrite W.
  - rewrite trimEnd_cons. now rewrite IH.
Qed.

Lemma trim_idempotent s : trim (trim s) = trim s.
Proof.
  unfold trim.
  rewrite (trimStart_fixed (trimEnd (trimStart s))).
  - apply trimEnd_idempotent.
  - apply head_white_trimEnd, head_white_trimStart.
Qed.

Lemma trimEnd_app_white t c :
  is_white_space c = true -> trimEnd (t ++ [c]) = trimEnd t.
Proof.
  intros W; induction t as [|d t IH]; cbn [trimEnd app].
  - now rewrite W.
  - now rewrite IH.
Qed.

Lemma trim_app_white s c :
  is_white_space c = true -> trim (s ++ [c]) = trim s.
Proof.
  intros W; unfold trim; induction s as [|d s IH]; cbn [trimStart app].
  - now rewrite W.
  - destruct (is_white_space d); auto.
    change (d :: s ++ [c]) with ((d :: s) ++ [c]).
    now apply trimEnd_app_white.
Qed.

(** *** A fenced payload *)

Lemma starts_with_fence_line q t :
  starts_with fence q = false -> starts_with fence (q ++ 10%N :: t) = false.
Proof.
  unfold fence.
  destruct q as [|a [|b [|c q]]]; cbn [starts_with app]; auto;
    change (backtick =? 10)%N with false;
    rewrite ?andb_false_r, ?andb_false_l; auto.
Qed.

Lemma remove_open_payload s :
  has_fence s = false ->
  remove_all fence_open_at (s ++ 10%N :: fence) = s ++ 10%N :: fence.
Proof.
  unfold remove_all; induction s as [|c s IH]; intros H.
  - reflexivity.
  - cbn [has_fence] in H. apply orb_false_elim in H. destruct H as [H1 H2].
    cbn [app remove_from].
    change (c :: s ++ 10%N :: fence) with ((c :: s) ++ 10%N :: fence).
    rewrite (fence_open_at_None _ (starts_with_fence_line _ _ H1)).
    now rewrite IH.
Qed.

Lemma remove_fence_payload s :
  has_fence s = false ->
  remove_all fence_at (s ++ 10%N :: fence) = s ++ [10%N].
Proof.
  unfold remove_all; induction s as [|c s IH]; intros H.
  - reflexivity.
  - cbn [has_fence] in H. apply orb_false_elim in H. destruct H as [H1 H2].
    cbn [app remove_from].
    change (c :: s ++ 10%N :: fence) with ((c :: s) ++ 10%N :: fence).
    rewrite (fence_at_None _ (starts_with_fence_line _ _ H1)).
    now rewrite IH.
Qed.

Lemma remove_open_line (tag : bool) rest :
  remove_all fence_open_at
    (fence ++ (if tag then lit "json" else []) ++ 10%N :: rest)
  = remove_all fence_open_at rest.
Proof. destruct tag; reflexivity. Qed.

End FenceFacts.

(** ** [JSON.parse] and surrounding white space *)

Module ParseFacts.
Import JSString JSNumber JSValue JSON.

Lemma white_space_cases c :
  is_white_space c = true -> In c white_space_chars.
Proof.
  unfold is_white_space; intros H.
  repeat (apply orb_prop in H; destruct H as [H|H]);
    try (apply andb_prop in H; destruct H as [H1 H2];
         apply N.leb_le in H1, H2);
    try apply N.eqb_eq in H; unfold white_space_chars; cbn [In]; lia.
Qed.

Lemma finish_nonempty f stack m : finish (f :: stack, m) = None.
Proof. now destruct m. Qed.

Lemma finish_step_struct_white stack m c v :
  In c white_space_chars ->
  finish (step_struct (stack, m) c) = Some v -> finish (stack, m) = Some v.
Proof.
  intros Hc.
  destruct stack as [|f stack].
  - repeat (destruct Hc as [<-|Hc]; [destruct m; cbn; auto; discriminate|]).
    destruct Hc.
  - repeat (destruct Hc as [<-|Hc];
            [destruct m; cbn; rewrite ?finish_nonempty; auto;
             try discriminate;
             destruct f; cbn; rewrite ?finish_nonempty; discriminate|]).
    destruct Hc.
Qed.

Ltac each_white_space Hc tac :=
  repeat (destruct Hc as [<-|Hc]; [tac|]); destruct Hc.

(** A white space character read at the end changes nothing of a
    successful parse. *)
Lemma finish_step_white stack m c v :
  In c white_space_chars ->
  finish (step (stack, m) c) = Some v -> finish (stack, m) = Some v.
Proof.
  intros Hc.
  destruct m as [ | | | | | |v0|k acc|k acc|k acc hex|tok|l seen| ];
    try exact (finish_step_struct_white stack _ c v Hc).
  - each_white_space Hc ltac:(cbn; destruct stack; discriminate).
  - each_white_space Hc ltac:(cbn; destruct stack; discriminate).
  - each_white_space Hc ltac:(cbn; destruct stack; discriminate).
  - destruct (number_value (rev tok)) as [x|] eqn:E.
    + destruct stack as [|f stack].
      * each_white_space Hc
          ltac:(cbn; rewrite E; cbn; solve [auto | discriminate]).
      * each_white_space Hc
          ltac:(cbn; rewrite E; destruct f as [es|props [key|]]; cbn;
                rewrite ?finish_nonempty; discriminate).
    + each_white_space Hc
        ltac:(cbn; rewrite E; destruct stack; discriminate).
  - each_white_space Hc
      ltac:(destruct l; destruct seen as [|[|[|[|[|[|seen]]]]]]; cbn;
            destruct stack; discriminate).
  - cbn; destruct stack; discriminate.
Qed.

Lemma fold_step_Err stack s : fold_left step s (stack, Err) = (stack, Err).
Proof. induction s; cbn [fold_left]; auto. Qed.

Lemma finish_Err stack : finish (stack, Err) = None.
Proof. now destruct stack. Qed.

Lemma forallb_white_cases l :
  forallb is_white_space l = true -> Forall (fun c => In c white_space_chars) l.
Proof.
  induction l as [|c l IH]; cbn [forallb]; intros H; constructor.
  - apply white_space_cases. now apply andb_prop in H.
  - apply IH. now apply andb_prop in H.
Qed.

Lemma finish_trailing_white tail st v :
  forallb is_white_space tail = true ->
  finish (fold_left step tail st) = Some v -> finish st = Some v.
Proof.
  intros H; apply forallb_white_cases in H; revert st.
  induction H as [|c tail Hc _ IH]; intros [stack m]; cbn [fold_left]; auto.
  intros F. apply IH in F. destruct (step (stack, m) c) as [stack' m'] eqn:E.
  apply (finish_step_white stack m c); auto. now rewrite E.
Qed.

Lemma step_init_white c :
  In c white_space_chars -> step init c = init \/ step init c = ([], Err).
Proof.
  intros Hc. each_white_space Hc ltac:(cbn; auto).
Qed.

Lemma finish_leading_white lead s v :
  forallb is_white_space lead = true ->
  finish (fold_left step (lead ++ s) init) = Some v ->
  finish (fold_left step s init) = Some v.
Proof.
  intros H; apply forallb_white_cases in H.
  induction H as [|c lead Hc _ IH]; cbn [fold_left app]; auto.
  destruct (step_init_white c Hc) as [-> | ->]; auto.
  rewrite fold_step_Err, finish_Err. discriminate.
Qed.

(** A text that parses still parses, to the same value, once trimmed. *)
Lemma parse_trim s v : parse s = Some v -> parse (trim s) = Some v.
Proof.
  unfold parse, trim.
  destruct (FenceFacts.trimStart_split s) as [lead [E1 W1]].
  destruct (FenceFacts.trimEnd_split (trimStart s)) as [tail [E2 W2]].
  intros H. rewrite E1, E2 in H.
  apply finish_leading_white in H; auto.
  rewrite fold_left_app in H.
  now apply finish_trailing_white in H.
Qed.

End ParseFacts.

(** ** The stages of the handler *)

Module HandlerFacts.
Import JSString JSNumber JSValue SmartSearch.

(** *** Thresholding *)

Lemma ge_lt v y : ge v y = Some true -> lt v y = Some false.
Proof.
  unfold ge, lt. destruct (ToNumber v) as [x|]; try discriminate.
  destruct (lessThan x y) as [[|]|]; cbn; congruence.
Qed.

Lemma filter_popular_flat rs :
  filter_popular (flat rs) = filter_popular (map Some (concat (map hits rs))).
Proof.
  unfold flat. induction rs as [|[l|] rs IH]; cbn [flat_map map concat hits app];
    auto.
  rewrite map_app.
  induction l as [|c l IHl]; cbn [map app filter_popular]; auto.
  now rewrite IHl.
Qed.

Lemma filter_popular_Some l final :
  filter_popular (map Some l) = Some final -> final = filter popular l.
Proof.
  revert final; induction l as [|c l IH]; cbn [map filter_popular filter];
    intros final H.
  - congruence.
  - unfold popular at 1.
    destruct (ge (playCount c) threshold) as [keep|]; try discriminate.
    destruct (filter_popular (map Some l)) as [l'|]; try discriminate.
    injection H as <-. rewrite (IH l' eq_refl). now destruct keep.
Qed.

(** The thresholded candidates are the popular hits of every title, title
    after title. *)
Lemma filter_popular_groups rs final :
  filter_popular (flat rs) = Some final ->
  final = concat (map (fun r => filter popular (hits r)) rs).
Proof.
  rewrite filter_popular_flat. intros H.
  apply filter_popular_Some in H. subst.
  rewrite <- concat_filter_map, map_map. reflexivity.
Qed.

(** *** Applying the flags *)

Lemma filter_indexed_ext A (f g : A -> nat -> bool) k l :
  (forall x i, f x i = g x i) -> filter_indexed f k l = filter_indexed g k l.
Proof.
  intros E; revert k; induction l as [|x l IH]; intros k;
    cbn [filter_indexed]; auto.
  now rewrite E, IH.
Qed.

Lemma filter_indexed_shift A (f : A -> nat -> bool) k l :
  filter_indexed f (S k) l = filter_indexed (fun x i => f x (S i)) k l.
Proof.
  revert k; induction l as [|x l IH]; intros k; cbn [filter_indexed]; auto.
  now rewrite IH.
Qed.

Lemma actuallyFinalFilteredSongs_combine candidates vector :
  actuallyFinalFilteredSongs candidates vector
  = map fst (filter flagged (combine candidates vector)).
Proof.
  unfold actuallyFinalFilteredSongs.
  revert vector; induction candidates as [|c cs IH]; intros vector;
    cbn [filter_indexed combine]; auto.
  rewrite filter_indexed_shift.
  destruct vector as [|flag vector].
  - cbn [nth strict_equals].
    rewrite (filter_indexed_ext _ _
               (fun _ i => strict_equals (nth i [] VUndefined) (of_Z 1)))
      by (now intros ? []).
    rewrite IH. now destruct cs.
  - cbn [nth filter]. unfold flagged at 1. cbn [snd].
    change (filter_indexed _ 0 cs)
      with (filter_indexed
              (fun (_ : CandidateSong) i =>
                 strict_equals (nth i vector VUndefined) (of_Z 1)) 0 cs).
    rewrite IH. now destruct (strict_equals flag (of_Z 1)).
Qed.


(** *** Runs *)

Lemma respond_silent final fs : fst (respond final fs) = [].
Proof.
  unfold respond. destruct (ToBoolean fs); cbn [negb]; auto.
  destruct (Get fs (lit "mySuggestion")) as [| | | | |vector|]; auto.
  destruct (length vector =? length final)%nat; reflexivity.
Qed.

Lemma search_all_run w songs :
  search_all w songs = (fst (search_from w 0 songs),
                        inl (snd (search_from w 0 songs))).
Proof. unfold search_all. now destruct (search_from w 0 songs). Qed.

Lemma smart_search_gathers w req_body userInput songs final :
  gathers w req_body userInput songs final ->
  smart_search w req_body
  = (Generate (SuggestPrompt userInput)
       :: fst (search_from w 0 songs) ++ fst (judge w userInput final),
     snd (run (judge w userInput final))).
Proof.
  intros [output suggestions Hu Ha Hp Ht Hs Hf].
  unfold smart_search, pipeline, generateContent, resolve.
  rewrite Hu, Ha. cbn. rewrite Hp. cbn. rewrite Ht, Hs. cbn.
  rewrite search_all_run. cbn. rewrite Hf.
  destruct (judge w userInput final) as [t [r|r]]; reflexivity.
Qed.

Lemma smart_search_judges w req_body final fs :
  judges w req_body final fs ->
  snd (smart_search w req_body) = snd (run (respond final fs)).
Proof.
  intros [userInput songs text filterOutput Hg Ht Ha Hp].
  rewrite (smart_search_gathers _ _ _ _ _ Hg). cbn [snd].
  unfold judge, generateContent. rewrite Ht, Ha. cbn. rewrite Hp.
  destruct (respond final fs) as [t [r|r]]; reflexivity.
Qed.

Lemma smart_search_judges_trace w req_body final fs :
  judges w req_body final fs ->
  exists userInput songs text,
    gathers w req_body userInput songs final
    /\ ToString userInput = Some text
    /\ fst (smart_search w req_body)
       = Generate (SuggestPrompt userInput)
           :: fst (search_from w 0 songs)
           ++ [Generate (FilterPrompt text (map project final))].
Proof.
  intros [userInput songs text filterOutput Hg Ht Ha Hp].
  exists userInput, songs, text. repeat split; auto.
  rewrite (smart_search_gathers _ _ _ _ _ Hg). cbn [fst].
  unfold judge, generateContent. rewrite Ht, Ha. cbn. rewrite Hp.
  pose proof (respond_silent final fs) as E.
  destruct (respond final fs) as [t [r|r]]; cbn in E |- *; now subst.
Qed.

(** A request that is answered with songs went through every stage. *)
Lemma success_inv w req_body l :
  json (snd (smart_search w req_body)) = SuggestedSongs l ->
  exists final fs vector,
    judges w req_body final fs
    /\ Get fs (lit "mySuggestion") = VArr vector
    /\ length vector = length final
    /\ l = actuallyFinalFilteredSongs final vector.
Proof.
  unfold smart_search, userInput_of.
  destruct (is_nullish req_body) eqn:Hn; [discriminate|].
  set (userInput := if ToBoolean (Get req_body (lit "songs"))
                    then Get req_body (lit "songs") else VArr []).
  assert (Hu : userInput_of req_body = ret userInput)
    by (unfold userInput_of; now rewrite Hn).
  unfold pipeline, generateContent.
  destruct (suggest_answer w) as [output|] eqn:Ha; [|discriminate].
  cbn. destruct (JSON.parse (clean output)) as [suggestions|] eqn:Hp;
    [|discriminate].
  unfold resolve.
  destruct (ToBoolean suggestions) eqn:Ht; [|discriminate]. cbn.
  destruct (Get suggestions (lit "songs")) as [| | | | |songs|] eqn:Hs;
    try discriminate.
  rewrite search_all_run. cbn.
  destruct (filter_popular (flat (snd (search_from w 0 songs))))
    as [final|] eqn:Hf; [|cbn; discriminate].
  assert (Hg : gathers w req_body userInput songs final)
    by (econstructor; eassumption).
  unfold judge, generateContent.
  destruct (ToString userInput) as [text|] eqn:Hx; [|cbn; discriminate].
  cbn. destruct (filter_answer w) as [filterOutput|] eqn:Hb;
    [|cbn; discriminate].
  cbn. destruct (JSON.parse (clean filterOutput)) as [fs|] eqn:Hq;
    [|cbn; discriminate].
  assert (Hj : judges w req_body final fs)
    by (econstructor; eassumption).
  unfold respond.
  destruct (ToBoolean fs); [|cbn; discriminate]. cbn [negb].
  destruct (Get fs (lit "mySuggestion")) as [| | | | |vector|] eqn:Hm;
    try (cbn; discriminate).
  destruct (length vector =? length final)%nat eqn:Hl;
    [|cbn; discriminate].
  cbn. intros H; injection H as <-.
  exists final, fs, vector. apply Nat.eqb_eq in Hl. auto.
Qed.


(** *** Catalog searches *)







Lemma search_from_nth w songs : forall k j song,
  nth_error songs j = Some song ->
  nth_error (snd (search_from w k songs)) j = Some (snd (search w (k + j) song)).
Proof.
  induction songs as [|s songs IH]; intros k [|j] song; cbn [nth_error];
    try discriminate; cbn [search_from];
    destruct (search w k s) as [t r] eqn:E;
    destruct (search_from w (S k) songs) as [ts rs] eqn:E'; cbn [snd nth_error].
  - intros H; injection H as <-. now rewrite Nat.add_0_r, E.
  - intros H. specialize (IH (S k) j song H). rewrite E' in IH. cbn in IH.
    now rewrite Nat.add_succ_r.
Qed.

Lemma search_from_length w songs k :
  length (snd (search_from w k songs)) = length songs.
Proof.
  revert k; induction songs as [|s songs IH]; intros k; cbn [search_from]; auto.
  specialize (IH (S k)).
  destruct (search w k s), (search_from w (S k) songs). cbn in *. now rewrite IH.
Qed.

(** *** Values *)

Lemma Get_array_truthy v k l : Get v k = VArr l -> ToBoolean v = true.
Proof.
  destruct v as [| | | |s| |]; cbn [Get ToBoolean]; auto; try discriminate.
  destruct (JSString.eqb k (lit "length")); try discriminate.
  destruct (array_index k) as [i|]; try discriminate.
  destruct (nth_error s i); discriminate.
Qed.

Lemma of_Z_1 : of_Z 1 = S754_finite false 4503599627370496 (-52).
Proof. vm_compute. reflexivity. Qed.

Lemma SFeqb_one x : SFeqb x (of_Z 1) = true -> x = of_Z 1.
Proof.
  rewrite of_Z_1. unfold SFeqb, SFcompare.
  destruct x as [s|s| |s m e]; try discriminate.
  - destruct s; discriminate.
  - destruct s; try discriminate.
    destruct (Z.compare e (-52)) eqn:E; try discriminate.
    apply Z.compare_eq in E. subst e.
    destruct (Pos.compare_cont Eq m 4503599627370496) eqn:M; try discriminate.
    apply Pos.compare_eq in M. now subst m.
Qed.

Lemma strict_equals_one flag :
  strict_equals flag (of_Z 1) = true <-> flag = VNum (of_Z 1).
Proof.
  split.
  - destruct flag; cbn [strict_equals]; try discriminate.
    intros H. apply SFeqb_one in H. now subst.
  - now intros ->.
Qed.

Lemma respond_equal_lengths candidates vector fs :
  length vector = length candidates ->
  Get fs (lit "mySuggestion") = VArr vector ->
  respond candidates fs
  = ([], inl {| status := 200;
                json := SuggestedSongs
                          (actuallyFinalFilteredSongs candidates vector) |}).
Proof.
  intros L G. unfold respond. rewrite (Get_array_truthy _ _ _ G), G.
  cbn [negb]. now rewrite L, Nat.eqb_refl.
Qed.

Lemma combine_app_eq A B (l1 l2 : list A) (r1 r2 : list B) :
  length l1 = length r1 ->
  combine (l1 ++ l2) (r1 ++ r2) = combine l1 r1 ++ combine l2 r2.
Proof.
  revert r1; induction l1 as [|x l1 IH]; intros [|y r1]; cbn [length];
    try discriminate; auto.
  intros H. cbn [app combine]. rewrite IH; auto.
Qed.

Lemma in_combine_nth A B (l : list A) (r : list B) a b :
  In (a, b) (combine l r)
  <-> exists i, nth_error l i = Some a /\ nth_error r i = Some b.
Proof.
  revert r; induction l as [|x l IH]; intros [|y r]; cbn [combine In].
  - split; [tauto|]. intros [[|i] [H _]]; discriminate.
  - split; [tauto|]. intros [[|i] [H _]]; discriminate.
  - split; [tauto|]. intros [[|i] [_ H]]; discriminate.
  - split.
    + intros [E|H].
      * injection E as -> ->. now exists 0.
      * apply IH in H. destruct H as [i H]. now exists (S i).
    + intros [[|i] [H1 H2]]; cbn [nth_error] in *.
      * left. congruence.
      * right. apply IH. now exists i.
Qed.

End HandlerFacts.

(** * The claims *)

Import JSString JSNumber JSValue SmartSearch Scenario.
Import FenceFacts ParseFacts HandlerFacts.

(** The runs of the scenarios are found by evaluation. *)
Ltac run_scenario :=
  repeat lazymatch goal with
         | |- judges _ _ _ _ => eapply Judges
         | |- gathers _ _ _ _ _ => eapply Gathers
         | |- _ = _ => vm_compute; reflexivity
         end.

(** C1.  When the relevance vector that was parsed has not the length of the
    candidate sequence, the request is answered 500 with the error
    "Suggestion array length mismatch" and no [suggestedSongs]: no vector
    is cut or padded to fit. *)
Theorem alignment_mismatch_fails w req_body final fs vector :
  judges w req_body final fs ->
  Get fs (lit "mySuggestion") = VArr vector ->
  length vector <> length final ->
  snd (smart_search w req_body)
  = {| status := 500; json := Error "Suggestion array length mismatch" |}.
Proof.
  intros J G L. rewrite (smart_search_judges _ _ _ _ J).
  unfold respond. rewrite (Get_array_truthy _ _ _ G), G. cbn [negb].
  apply Nat.eqb_neq in L. now rewrite L.
Qed.

Lemma alignment_mismatch_fails_witness :
  judges short_vector shape_of_you_request
         (candidates short_vector) (verdict short_vector)
  /\ Get (verdict short_vector) (lit "mySuggestion") = VArr (flags short_vector)
  /\ length (flags short_vector) <> length (candidates short_vector)
  /\ snd (smart_search short_vector shape_of_you_request)
     = {| status := 500; json := Error "Suggestion array length mismatch" |}.
Proof.
  assert (J : judges short_vector shape_of_you_request
                     (candidates short_vector) (verdict short_vector))
    by run_scenario.
  assert (G : Get (verdict short_vector) (lit "mySuggestion")
              = VArr (flags short_vector)) by (vm_compute; reflexivity).
  assert (L : length (flags short_vector) <> length (candidates short_vector))
    by (vm_compute; discriminate).
  split; [exact J|]. split; [exact G|]. split; [exact L|].
  exact (alignment_mismatch_fails _ _ _ _ _ J G L).
Defined.

(** C2.  For candidates and a relevance vector of the same length, the
    assembled result is made of the candidates whose flag is 1, in the
    order of the candidates: a song is in the result exactly when it stands
    at a position whose flag is 1.  The result is no longer than the
    candidate sequence, and the assembly answers 200 with it without any
    call to the outside and without failing. *)
Theorem assemble_keeps_flagged candidates vector fs :
  length vector = length candidates ->
  Get fs (lit "mySuggestion") = VArr vector ->
  let result := actuallyFinalFilteredSongs candidates vector in
  result = map fst (filter flagged (combine candidates vector))
  /\ (forall song, In song result
                   <-> exists i, nth_error candidates i = Some song
                                 /\ nth_error vector i = Some (VNum (of_Z 1)))
  /\ length result <= length candidates
  /\ respond candidates fs
     = ([], inl {| status := 200; json := SuggestedSongs result |}).
Proof.
  intros L G result. subst result.
  rewrite actuallyFinalFilteredSongs_combine.
  split; [reflexivity|]. split; [|split].
  - intros song. rewrite in_map_iff. split.
    + intros [[c flag] [<- H]]. apply filter_In in H. destruct H as [H F].
      apply in_combine_nth in H. destruct H as [i [H1 H2]].
      apply strict_equals_one in F. cbn [snd] in F. subst flag. now exists i.
    + intros [i [H1 H2]]. exists (song, VNum (of_Z 1)). split; [reflexivity|].
      apply filter_In. split; [|reflexivity].
      apply in_combine_nth. now exists i.
  - rewrite length_map.
    etransitivity; [apply filter_length_le|].
    rewrite length_combine. apply Nat.le_min_l.
  - rewrite (respond_equal_lengths _ _ _ L G).
    now rewrite actuallyFinalFilteredSongs_combine.
Qed.

Lemma assemble_keeps_flagged_witness :
  length (flags one_search_down) = length (candidates one_search_down)
  /\ Get (verdict one_search_down) (lit "mySuggestion")
     = VArr (flags one_search_down)
  /\ actuallyFinalFilteredSongs (candidates one_search_down)
                                (flags one_search_down)
     = map fst (filter flagged (combine (candidates one_search_down)
                                        (flags one_search_down)))
  /\ respond (candidates one_search_down) (verdict one_search_down)
     = ([], inl {| status := 200; json := SuggestedSongs [believer; thunder] |}).
Proof.
  assert (L : length (flags one_search_down)
              = length (candidates one_search_down))
    by (vm_compute; reflexivity).
  assert (G : Get (verdict one_search_down) (lit "mySuggestion")
              = VArr (flags one_search_down)) by (vm_compute; reflexivity).
  split; [exact L|]. split; [exact G|].
  destruct (assemble_keeps_flagged _ _ _ L G) as [E [_ [_ R]]].
  split; [exact E|]. rewrite R. vm_compute. reflexivity.
Defined.

(** C3.  Whenever a request is answered with songs, each of them passed the
    test [playCount >= 90000], so for none of them [playCount < 90000]
    holds: the candidates left after flattening are exactly the hits that
    pass the test, and the answer is drawn from them. *)
Theorem unpopular_never_suggested w req_body suggested :
  json (snd (smart_search w req_body)) = SuggestedSongs suggested ->
  Forall (fun song => ge (playCount song) threshold = Some true
                      /\ lt (playCount song) threshold = Some false) suggested
  /\ exists userInput songs final,
       gathers w req_body userInput songs final
       /\ final = filter popular
                    (concat (map hits (snd (search_from w 0 songs))))
       /\ incl suggested final.
Proof.
  intros H. apply success_inv in H.
  destruct H as [final [fs [vector [J [G [L ->]]]]]].
  destruct (smart_search_judges_trace _ _ _ _ J)
    as [userInput [songs [text [Hg _]]]].
  assert (F : final = filter popular
                        (concat (map hits (snd (search_from w 0 songs))))).
  { destruct Hg as [? ? _ _ _ _ _ Hf].
    rewrite filter_popular_flat in Hf. now apply filter_popular_Some. }
  assert (I : incl (actuallyFinalFilteredSongs final vector) final).
  { rewrite actuallyFinalFilteredSongs_combine. intros c Hc.
    apply in_map_iff in Hc. destruct Hc as [[c' flag] [<- Hc]].
    apply filter_In in Hc. destruct Hc as [Hc _].
    now apply in_combine_l in Hc. }
  split.
  - apply Forall_forall. intros c Hc. apply I in Hc.
    rewrite F in Hc. apply filter_In in Hc. destruct Hc as [_ Hp].
    unfold popular in Hp.
    destruct (ge (playCount c) threshold) as [[|]|] eqn:E; try discriminate.
    split; auto. now apply ge_lt.
  - exists userInput, songs, final. auto.
Qed.

Lemma unpopular_never_suggested_witness :
  json (snd (smart_search shape_of_you shape_of_you_request))
  = SuggestedSongs [shape]
  /\ Forall (fun song => ge (playCount song) threshold = Some true
                         /\ lt (playCount song) threshold = Some false)
            [shape].
Proof.
  assert (H : json (snd (smart_search shape_of_you shape_of_you_request))
              = SuggestedSongs [shape]) by (vm_compute; reflexivity).
  split; [exact H|].
  exact (proj1 (unpopular_never_suggested _ _ _ H)).
Defined.

(** C4, as the specification states it, fails: [id] is copied without a
    default.  A catalog record whose [id] is [null] or missing gives a
    candidate whose [id] is [null] or [undefined], and the candidate goes
    out in the response like that. *)
Lemma id_has_no_default :
  id (toCandidate null_id_record) = VNull
  /\ forallb defined (fields (toCandidate null_id_record)) = false
  /\ match json (snd (smart_search anonymous shape_of_you_request)) with
     | SuggestedSongs l => map id l = [VUndefined; VNull]
     | Error _ => False
     end.
Proof. vm_compute. auto. Qed.

Lemma nullish_or_defined a b : defined b = true -> defined (a ?? b) = true.
Proof. unfold nullish_or, defined. now destruct (is_nullish a) eqn:E; rewrite ?E. Qed.

Lemma chain_missing props k :
  has_own props (lit k) = false -> (VObj props)?.k = VUndefined.
Proof.
  unfold has_own, opt_get. cbn [is_nullish Get].
  now destruct (own props (lit k)).
Qed.

(** C4, amended.  Every field of a candidate other than [id] is neither
    [undefined] nor [null], whatever the catalog record is; [id] is the
    record's own [id], as it is; and a record that lacks a property gets the
    default of the field read from it: "Unknown Song", "Unknown Artist",
    "Unknown Album", "Unknown Language", "Unknown Year", 0, the placeholder
    image, the empty array. *)
Theorem every_field_but_id_has_a_default songData :
  let c := toCandidate songData in
  forallb defined (defaulted_fields c) = true
  /\ id c = songData?."id"
  /\ forall props, songData = VObj props ->
       (has_own props (lit "name") = false -> title c = VStr (lit "Unknown Song"))
       /\ (has_own props (lit "artists") = false ->
           artist c = VStr (lit "Unknown Artist"))
       /\ (has_own props (lit "album") = false ->
           album c = VStr (lit "Unknown Album"))
       /\ (has_own props (lit "language") = false ->
           language c = VStr (lit "Unknown Language"))
       /\ (has_own props (lit "year") = false ->
           year c = VStr (lit "Unknown Year"))
       /\ (has_own props (lit "playCount") = false ->
           playCount c = VNum (of_Z 0))
       /\ (has_own props (lit "image") = false -> image c = placeholderImage)
       /\ (has_own props (lit "downloadUrl") = false ->
           downloadUrls c = VArr []).
Proof.
  intros c. split; [|split; [reflexivity|]].
  - unfold defaulted_fields, c, toCandidate.
    cbn [forallb title artist album language year playCount image
         downloadUrls].
    rewrite !nullish_or_defined; reflexivity.
  - intros props ->. unfold c, toCandidate.
    cbn [title artist album language year playCount image downloadUrls].
    repeat split; intros H; rewrite (chain_missing _ _ H); reflexivity.
Qed.

Lemma every_field_but_id_has_a_default_witness :
  forallb defined (defaulted_fields (toCandidate empty_record)) = true
  /\ id (toCandidate empty_record) = VUndefined
  /\ title (toCandidate empty_record) = VStr (lit "Unknown Song")
  /\ artist (toCandidate empty_record) = VStr (lit "Unknown Artist")
  /\ playCount (toCandidate empty_record) = VNum (of_Z 0)
  /\ image (toCandidate empty_record) = placeholderImage.
Proof.
  destruct (every_field_but_id_has_a_default empty_record) as [D [I F]].
  destruct (F [] eq_refl) as [Ht [Ha [_ [_ [_ [Hp [Hi _]]]]]]].
  split; [exact D|]. split; [exact I|]. split; [exact (Ht eq_refl)|].
  split; [exact (Ha eq_refl)|]. split; [exact (Hp eq_refl)|exact (Hi eq_refl)].
Defined.

(** C5, as the specification states it, fails: a run of three backticks
    inside the payload is removed with the fence.  The JSON string made of
    three backticks parses to that string; wrapped in a fence and cleaned,
    it parses to the empty string. *)
Lemma fence_in_payload_is_lost :
  JSON.parse backticks = Some (VStr fence)
  /\ JSON.parse (clean (fenced true backticks)) = Some (VStr [])
  /\ JSON.parse (clean (fenced true backticks)) <> JSON.parse backticks.
Proof. vm_compute. repeat split; discriminate. Qed.

Lemma clean_idempotent text : clean (clean text) = clean text.
Proof.
  unfold clean.
  set (t := trim (remove_all fence_at (remove_all fence_open_at text))).
  assert (F : has_fence t = false)
    by (apply has_fence_trim, remove_fence_no_fence).
  rewrite (remove_fence_free fence_open_at t fence_open_at_None F).
  rewrite (remove_fence_free fence_at t fence_at_None F).
  apply trim_idempotent.
Qed.

Lemma clean_fenced tag payload :
  has_fence payload = false -> clean (fenced tag payload) = trim payload.
Proof.
  intros F. unfold clean, fenced.
  change (payload ++ [10%N] ++ fence) with (payload ++ 10%N :: fence).
  change ([10%N] ++ payload ++ 10%N :: fence)
    with (10%N :: payload ++ 10%N :: fence).
  rewrite remove_open_line, (remove_open_payload _ F),
    (remove_fence_payload _ F).
  now apply trim_app_white.
Qed.

Lemma clean_plain payload :
  has_fence payload = false -> clean payload = trim payload.
Proof.
  intros F. unfold clean.
  rewrite (remove_fence_free fence_open_at _ fence_open_at_None F).
  now rewrite (remove_fence_free fence_at _ fence_at_None F).
Qed.

(** C5, amended.  For a payload without a run of three backticks that is
    valid JSON, cleaning the payload wrapped in a code fence and parsing
    gives the value of the payload parsed directly, and so does cleaning
    the payload as it is; and cleaning any text twice is cleaning it
    once. *)
Theorem fenced_payload_parses (tag : bool) payload v :
  has_fence payload = false ->
  JSON.parse payload = Some v ->
  JSON.parse (clean (fenced tag payload)) = Some v
  /\ JSON.parse (clean payload) = Some v
  /\ forall text, clean (clean text) = clean text.
Proof.
  intros F P. split; [|split; [|exact clean_idempotent]].
  - rewrite (clean_fenced tag _ F). now apply parse_trim.
  - rewrite (clean_plain _ F). now apply parse_trim.
Qed.

Lemma fenced_payload_parses_witness :
  has_fence titles_payload = false
  /\ JSON.parse titles_payload
     = Some (VObj [(lit "songs", VArr (titles one_search_down))])
  /\ JSON.parse (clean (fenced true titles_payload))
     = Some (VObj [(lit "songs", VArr (titles one_search_down))]).
Proof.
  assert (F : has_fence titles_payload = false) by (vm_compute; reflexivity).
  assert (P : JSON.parse titles_payload
              = Some (VObj [(lit "songs", VArr (titles one_search_down))]))
    by (vm_compute; reflexivity).
  split; [exact F|]. split; [exact P|].
  exact (proj1 (fenced_payload_parses true _ _ F P)).
Defined.

Lemma gathers_final w req_body userInput songs final :
  gathers w req_body userInput songs final ->
  final = concat (map (fun r => filter popular (hits r))
                      (snd (search_from w 0 songs))).
Proof. intros [? ? _ _ _ _ _ Hf]. now apply filter_popular_groups. Qed.



(** C7.  For every title list, the results of the searches keep the
    positions of their titles, and the hits of a title are the records of
    the catalog's result array, mapped in the order of that array.  The
    flattened candidate sequence is, title after title in the order of the
    title list, the hits of the title that pass the threshold.  Nothing
    else is removed: the length of the sequence is the sum of the lengths
    of these groups, so a song found under two titles is there twice. *)
Theorem candidates_follow_titles w songs :
  let FilterSongs := snd (search_from w 0 songs) in
  length FilterSongs = length songs
  /\ (forall i song, nth_error songs i = Some song ->
                     nth_error FilterSongs i = Some (snd (search w i song)))
  /\ (forall i song l, snd (search w i song) = Some l ->
        exists data, catalog w i = Response true (Some data)
                     /\ l = candidates_of data
                     /\ forall results,
                          expected_shape data = true ->
                          Get (Get data (lit "data")) (lit "results")
                          = VArr results ->
                          l = map toCandidate results)
  /\ forall final,
       filter_popular (flat FilterSongs) = Some final ->
       final = concat (map (fun r => filter popular (hits r)) FilterSongs)
       /\ length final
          = list_sum (map (fun r => length (filter popular (hits r)))
                          FilterSongs).
Proof.
  intros FilterSongs. subst FilterSongs.
  split; [apply search_from_length|].
  split; [intros i song Hi; exact (search_from_nth w songs 0 i song Hi)|].
  split.
  - intros i song l. unfold search.
    destruct (ToString song) as [s|]; try discriminate.
    destruct (encodeURIComponent s); try discriminate. cbn [snd].
    destruct (catalog w i) as [|[|] [data|]]; try discriminate.
    intros H; injection H as <-. exists data. repeat split; auto.
    intros results S R. unfold candidates_of, expected_shape in *.
    destruct (ToBoolean data); try discriminate.
    destruct (ToBoolean (Get data (lit "data"))); try discriminate.
    now rewrite R.
  - intros final Hf. apply filter_popular_groups in Hf. split; auto.
    rewrite Hf. clear.
    induction (snd (search_from w 0 songs)) as [|r rs IH];
      cbn [map concat list_sum]; auto.
    now rewrite length_app, IH.
Qed.

Lemma candidates_follow_titles_witness :
  filter_popular
    (flat (snd (search_from one_search_down 0 (titles one_search_down))))
  = Some (candidates one_search_down)
  /\ candidates one_search_down
     = concat (map (fun r => filter popular (hits r))
                   (snd (search_from one_search_down 0 (titles one_search_down))))
  /\ candidates one_search_down = [believer; believer_live; thunder; believer].
Proof.
  assert (F : filter_popular
                (flat (snd (search_from one_search_down 0
                                        (titles one_search_down))))
              = Some (candidates one_search_down)) by (vm_compute; reflexivity).
  split; [exact F|]. split.
  - exact (proj1 (proj2 (proj2 (proj2
             (candidates_follow_titles one_search_down
                                       (titles one_search_down))))
                   _ F)).
  - vm_compute; reflexivity.
Defined.







(** C9.  With flags as many as candidates, the candidate at a position is
    in the result when the flag at that position is the number 1 and is
    left out for any other flag, whatever stands before and after, and the
    request is answered 200 either way; a flag passes the test only if it
    is the Number 1. *)
Theorem only_number_one_is_kept before song after fbefore flag fafter fs :
  length fbefore = length before ->
  length fafter = length after ->
  Get fs (lit "mySuggestion") = VArr (fbefore ++ flag :: fafter) ->
  respond (before ++ song :: after) fs
  = ([], inl {| status := 200;
                json := SuggestedSongs
                          (actuallyFinalFilteredSongs before fbefore
                           ++ (if strict_equals flag (of_Z 1) then [song] else [])
                           ++ actuallyFinalFilteredSongs after fafter) |})
  /\ (strict_equals flag (of_Z 1) = true <-> flag = VNum (of_Z 1)).
Proof.
  intros Lb La G. split; [|apply strict_equals_one].
  assert (L : length (fbefore ++ flag :: fafter)
              = length (before ++ song :: after))
    by (rewrite !length_app; cbn [length]; lia).
  rewrite (respond_equal_lengths _ _ _ L G).
  do 4 f_equal.
  rewrite !actuallyFinalFilteredSongs_combine.
  rewrite combine_app_eq by (symmetry; exact Lb). cbn [combine].
  rewrite filter_app, map_app. cbn [filter]. unfold flagged at 2. cbn [snd].
  now destruct (strict_equals flag (of_Z 1)).
Qed.

Lemma only_number_one_is_kept_witness :
  length [VStr (lit "1"); VNum (of_Z 2)] = length [believer; believer_live]
  /\ @length value [] = @length CandidateSong []
  /\ Get (verdict odd_flags) (lit "mySuggestion")
     = VArr ([VStr (lit "1"); VNum (of_Z 2)] ++ VNum (of_Z 1) :: [VNull])
  /\ respond ([believer; believer_live] ++ thunder :: [believer])
             (verdict odd_flags)
     = ([], inl {| status := 200; json := SuggestedSongs [thunder] |})
  /\ respond ([] ++ believer :: [believer_live; thunder; believer])
             (verdict odd_flags)
     = ([], inl {| status := 200; json := SuggestedSongs [thunder] |})
  /\ map (fun flag => strict_equals flag (of_Z 1))
         [parsed "1"; parsed "0"; parsed "2"; parsed "'1'"; parsed "null";
          parsed "1.5"; parsed "true"; parsed "[1]"]
     = [true; false; false; false; false; false; false; false].
Proof.
  assert (G : Get (verdict odd_flags) (lit "mySuggestion")
              = VArr ([VStr (lit "1"); VNum (of_Z 2)]
                      ++ VNum (of_Z 1) :: [VNull]))
    by (vm_compute; reflexivity).
  split; [reflexivity|]. split; [reflexivity|]. split; [exact G|]. split.
  - exact (proj1 (only_number_one_is_kept
                    [believer; believer_live] thunder [believer]
                    [VStr (lit "1"); VNum (of_Z 2)] (VNum (of_Z 1)) [VNull]
                    (verdict odd_flags) eq_refl eq_refl G)).
  - split; [|vm_compute; reflexivity].
    exact (proj1 (only_number_one_is_kept
                    [] believer [believer_live; thunder; believer]
                    [] (VStr (lit "1")) [VNum (of_Z 2); VNum (of_Z 1); VNull]
                    (verdict odd_flags) eq_refl eq_refl G)).
Defined.

Lemma judge_empty_input_trace w final :
  fst (judge w (VArr []) final)
  = [Generate (FilterPrompt [] (map project final))].
Proof.
  unfold judge, generateContent. cbn [ToString].
  destruct (filter_answer w) as [out|]; [|reflexivity].
  cbn -[clean]. destruct (JSON.parse (clean out)) as [fs|]; [|reflexivity].
  pose proof (respond_silent final fs) as E.
  destruct (respond final fs) as [t [r|r]]; cbn in E |- *; now subst.
Qed.

(** C10.  A request whose body has no [songs], or a falsy one, is not
    turned down: it is handled as the request whose input is the empty
    array.  The first call to the oracle is made with that input, and a run
    that gets past the catalog stage makes the second call with it. *)
Theorem missing_songs_means_empty_input w req_body :
  is_nullish req_body = false ->
  ToBoolean (Get req_body (lit "songs")) = false ->
  smart_search w req_body = run (pipeline w (VArr []))
  /\ (exists rest, fst (smart_search w req_body)
                   = Generate (SuggestPrompt (VArr [])) :: rest)
  /\ forall userInput songs final,
       gathers w req_body userInput songs final ->
       userInput = VArr []
       /\ fst (smart_search w req_body)
          = Generate (SuggestPrompt (VArr []))
              :: fst (search_from w 0 songs)
              ++ [Generate (FilterPrompt [] (map project final))].
Proof.
  intros Hn Hs.
  assert (U : userInput_of req_body = ret (VArr []))
    by (unfold userInput_of; now rewrite Hn, Hs).
  assert (E : smart_search w req_body = run (pipeline w (VArr []))).
  { unfold smart_search. rewrite U. cbn [bind ret].
    now destruct (pipeline w (VArr [])) as [t [r|r]]. }
  split; [exact E|]. split.
  - rewrite E. unfold pipeline, generateContent.
    destruct (suggest_answer w) as [out|]; cbn -[clean resolve].
    + destruct (match JSON.parse (clean out) with
                | Some su => resolve w (VArr []) su
                | None => fail 500 "Failed to parse response from AI"
                end) as [t [r|r]]; cbn; eauto.
    + eauto.
  - intros userInput songs final Hg.
    assert (userInput = VArr []) as ->.
    { destruct Hg as [? ? Hu _ _ _ _ _]. rewrite U in Hu.
      now injection Hu. }
    split; [reflexivity|].
    rewrite (smart_search_gathers _ _ _ _ _ Hg). cbn [fst].
    now rewrite judge_empty_input_trace.
Qed.

Lemma missing_songs_means_empty_input_witness :
  is_nullish empty_request = false
  /\ ToBoolean (Get empty_request (lit "songs")) = false
  /\ smart_search anonymous empty_request = run (pipeline anonymous (VArr []))
  /\ map (fun e => match e with Generate _ => true | Fetch _ => false end)
         (fst (smart_search anonymous empty_request))
     = [true; false; true].
Proof.
  split; [reflexivity|]. split; [reflexivity|]. split.
  - exact (proj1 (missing_songs_means_empty_input
                    anonymous empty_request eq_refl eq_refl)).
  - vm_compute; reflexivity.
Defined.

(** * Further properties of the code *)

Import Routes Runs Edge.

(** ** Cleaning an oracle answer (lines 73-76, 135-138, 236-239) *)

Lemma head_white_app_cons a c b :
  head_white ((c :: a) ++ b) = head_white (c :: a).
Proof. reflexivity. Qed.

Lemma rev_cons_nonempty (c : N) a : exists d t, rev (c :: a) = d :: t.
Proof.
  destruct (rev (c :: a)) as [|d t] eqn:E; eauto.
  apply (f_equal (@length N)) in E. rewrite length_rev in E. discriminate.
Qed.

Lemma head_white_rev_trimEnd s : head_white (rev (trimEnd s)) = false.
Proof.
  induction s as [|c s IH]; auto.
  rewrite trimEnd_cons. destruct (trimEnd s) as [|x t] eqn:T.
  - destruct (is_white_space c) eqn:W; cbn; auto.
  - change (rev (c :: x :: t)) with (rev (x :: t) ++ [c]).
    destruct (rev_cons_nonempty x t) as [d [u E]]. rewrite E in IH |- *.
    exact IH.
Qed.

Lemma trimEnd_fixed s : head_white (rev s) = false -> trimEnd s = s.
Proof.
  induction s as [|c s IH]; auto.
  intros H. rewrite trimEnd_cons.
  destruct s as [|x t].
  - cbn in H |- *. now rewrite H.
  - change (rev (c :: x :: t)) with (rev (x :: t) ++ [c]) in H.
    destruct (rev_cons_nonempty x t) as [d [u E]]. rewrite E in H, IH.
    rewrite (IH H). reflexivity.
Qed.

(** X1.  A cleaned answer has no run of three backticks left, and no white
    space at its start or at its end. *)
Theorem clean_leaves_no_fence_no_margin output :
  has_fence (clean output) = false
  /\ head_white (clean output) = false
  /\ head_white (rev (clean output)) = false.
Proof.
  unfold clean. split; [|split].
  - apply has_fence_trim, remove_fence_no_fence.
  - apply head_white_trimEnd, head_white_trimStart.
  - apply head_white_rev_trimEnd.
Qed.

Lemma subsequence_refl s : subsequence s s.
Proof. induction s; constructor; auto. Qed.

Lemma subsequence_app_l a b : subsequence b (a ++ b).
Proof.
  induction a as [|c a IH]; cbn [app]; [apply subsequence_refl|].
  now constructor.
Qed.

Lemma subsequence_app_r a b : subsequence a (a ++ b).
Proof.
  induction a as [|c a IH]; cbn [app].
  - induction b; constructor; auto.
  - now constructor.
Qed.

Lemma subsequence_trans a b c :
  subsequence a b -> subsequence b c -> subsequence a c.
Proof.
  intros Hab Hbc. revert a Hab.
  induction Hbc as [|x b c _ IH|x b c _ IH]; intros a Hab.
  - exact Hab.
  - inversion Hab; subst.
    + constructor. now apply IH.
    + apply subsequence_drop. now apply IH.
  - apply subsequence_drop. now apply IH.
Qed.

Lemma subsequence_remove m k s : subsequence (remove_from m k s) s.
Proof.
  revert k; induction s as [|c s IH]; intros k; cbn [remove_from].
  - constructor.
  - destruct k as [|k]; [|apply subsequence_drop, IH].
    destruct (m (c :: s)) as [[|j]|].
    + constructor. apply IH.
    + apply subsequence_drop, IH.
    + constructor. apply IH.
Qed.

Lemma subsequence_trim s : subsequence (trim s) s.
Proof.
  unfold trim.
  destruct (trimStart_split s) as [lead [E _]].
  destruct (trimEnd_split (trimStart s)) as [tail [E' _]].
  rewrite E at 2. rewrite E' at 2.
  eapply subsequence_trans; [apply subsequence_app_r|apply subsequence_app_l].
Qed.

(** X2.  Cleaning only deletes: the cleaned answer is the answer with some
    code units left out, none added, none moved. *)
Theorem clean_only_deletes output :
  subsequence (clean output) output /\ length (clean output) <= length output.
Proof.
  assert (S : subsequence (clean output) output).
  { unfold clean, remove_all.
    eapply subsequence_trans; [apply subsequence_trim|].
    eapply subsequence_trans; apply subsequence_remove. }
  split; [exact S|].
  induction S; cbn [length]; lia.
Qed.

(** X3.  An answer without a run of three backticks and without white space
    at its ends is left as it is. *)
Theorem clean_keeps_plain_text output :
  has_fence output = false ->
  head_white output = false ->
  head_white (rev output) = false ->
  clean output = output.
Proof.
  intros F H T. rewrite (clean_plain _ F). unfold trim.
  rewrite (trimStart_fixed _ H). now apply trimEnd_fixed.
Qed.

Lemma clean_keeps_plain_text_witness :
  has_fence titles_payload = false
  /\ head_white titles_payload = false
  /\ head_white (rev titles_payload) = false
  /\ clean titles_payload = titles_payload.
Proof.
  split; [reflexivity|]. split; [reflexivity|]. split; [reflexivity|].
  exact (clean_keeps_plain_text titles_payload eq_refl eq_refl eq_refl).
Defined.

(** ** The API key check (lines 25-35) *)

Lemma jsstring_eqb_eq a b : JSString.eqb a b = true <-> a = b.
Proof.
  revert b; induction a as [|x a IH]; intros [|y b]; cbn [JSString.eqb];
    split; try discriminate; auto.
  - intros H. apply andb_prop in H. destruct H as [H1 H2].
    apply N.eqb_eq in H1. apply IH in H2. now subst.
  - intros H. injection H as -> ->. rewrite N.eqb_refl. now apply IH.
Qed.

Lemma checkApiKey_status CLIENT_API_KEY apiKey :
  checkApiKey CLIENT_API_KEY apiKey = None
  \/ checkApiKey CLIENT_API_KEY apiKey
     = Some (403, "Forbidden: Invalid API key."%string).
Proof.
  unfold checkApiKey. destruct apiKey as [[|c key]|]; auto.
  destruct CLIENT_API_KEY as [secret|]; auto.
  destruct (JSString.eqb (c :: key) secret); auto.
Qed.

Lemma checkApiKey_None CLIENT_API_KEY apiKey :
  checkApiKey CLIENT_API_KEY apiKey = None
  <-> exists key, key <> [] /\ apiKey = Some key /\ CLIENT_API_KEY = Some key.
Proof.
  unfold checkApiKey. split.
  - destruct apiKey as [[|c key]|]; try discriminate.
    destruct CLIENT_API_KEY as [secret|]; try discriminate.
    destruct (JSString.eqb (c :: key) secret) eqn:E; try discriminate.
    apply jsstring_eqb_eq in E. subst secret. intros _.
    exists (c :: key). repeat split; auto. discriminate.
  - intros [key [N [-> ->]]]. destruct key as [|c key]; [congruence|].
    now rewrite (proj2 (jsstring_eqb_eq (c :: key) (c :: key)) eq_refl).
Qed.

(** X4.  The key check lets a request through exactly when its
    [x-api-key] header is a non-empty string equal to the configured key.
    So when no key is configured, or an empty one, every request is turned
    down, also one that sends the empty key. *)
Theorem checkApiKey_passes_iff CLIENT_API_KEY apiKey :
  (checkApiKey CLIENT_API_KEY apiKey = None
   <-> exists key, key <> [] /\ apiKey = Some key /\ CLIENT_API_KEY = Some key)
  /\ (checkApiKey CLIENT_API_KEY apiKey = None
      \/ checkApiKey CLIENT_API_KEY apiKey
         = Some (403, "Forbidden: Invalid API key."%string))
  /\ (checkApiKey None apiKey <> None)
  /\ (checkApiKey (Some []) apiKey <> None).
Proof.
  split; [apply checkApiKey_None|]. split; [apply checkApiKey_status|].
  split; unfold checkApiKey; destruct apiKey as [[|c key]|]; discriminate.
Qed.

(** ** What [/smart-search] answers and calls (lines 89-277) *)

Lemma search_from_fetches w songs k :
  Forall (fun e => is_fetch e = true) (fst (search_from w k songs))
  /\ length (fst (search_from w k songs)) <= length songs.
Proof.
  revert k; induction songs as [|song songs IH]; intros k; cbn [search_from].
  - split; [constructor|auto].
  - destruct (IH (S k)) as [F L].
    assert (S1 : Forall (fun e => is_fetch e = true) (fst (search w k song))
                 /\ length (fst (search w k song)) <= 1).
    { unfold search. destruct (ToString song) as [s|]; [|split; auto].
      destruct (encodeURIComponent s); split; cbn; auto. }
    destruct S1 as [F1 L1].
    destruct (search w k song) as [t r].
    destruct (search_from w (S k) songs) as [ts rs].
    cbn [fst length] in *. split.
    + apply Forall_app; auto.
    + rewrite length_app. lia.
Qed.

(** The handler ends in one of its exits. *)
Lemma smart_search_outcome w req_body :
  outcome w req_body (fst (smart_search w req_body))
          (snd (smart_search w req_body)).
Proof.
  unfold smart_search, userInput_of.
  destruct (is_nullish req_body) eqn:Hn; [now apply body_missing|].
  set (userInput := if ToBoolean (Get req_body (lit "songs"))
                    then Get req_body (lit "songs") else VArr []).
  assert (Hu : userInput_of req_body = ret userInput)
    by (unfold userInput_of; now rewrite Hn).
  unfold pipeline, generateContent.
  destruct (suggest_answer w) as [output|] eqn:Ha;
    [|now apply suggest_call_throws].
  cbn -[clean]. destruct (JSON.parse (clean output)) as [suggestions|] eqn:Hp;
    [|now apply suggest_unparsable with output].
  unfold resolve.
  destruct (ToBoolean suggestions) eqn:Ht;
    [|now apply suggest_malformed with output suggestions; auto; rewrite Ht].
  cbn [negb].
  destruct (Get suggestions (lit "songs")) as [| | | | |songs|] eqn:Hs;
    try (apply suggest_malformed with output suggestions; auto;
         rewrite Ht, Hs; reflexivity).
  assert (Hq : proposes w req_body userInput songs)
    by (econstructor; eassumption).
  rewrite search_all_run. cbn [bind].
  destruct (filter_popular (flat (snd (search_from w 0 songs))))
    as [final|] eqn:Hf;
    [|cbn; rewrite ?app_nil_r; now apply comparison_throws].
  assert (Hg : gathers w req_body userInput songs final)
    by (econstructor; eassumption).
  unfold judge, generateContent.
  destruct (ToString userInput) as [text|] eqn:Hx;
    [|cbn; rewrite ?app_nil_r; now apply input_unprintable with final].
  cbn -[clean]. destruct (filter_answer w) as [filterOutput|] eqn:Hb;
    [|cbn; rewrite ?app_nil_r; now apply filter_call_throws].
  cbn -[clean]. destruct (JSON.parse (clean filterOutput)) as [fs|] eqn:Hy;
    [|cbn; rewrite ?app_nil_r; now apply filter_unparsable with filterOutput].
  unfold respond.
  destruct (ToBoolean fs) eqn:Hz;
    [|cbn; rewrite ?app_nil_r; apply filter_malformed with filterOutput fs;
      auto; now rewrite Hz].
  cbn [negb].
  destruct (Get fs (lit "mySuggestion")) as [| | | | |vector|] eqn:Hm;
    try (cbn; rewrite ?app_nil_r; apply filter_malformed with filterOutput fs; auto;
         rewrite Hz, Hm; reflexivity).
  destruct (length vector =? length final)%nat eqn:Hl; cbn; rewrite ?app_nil_r.
  - apply Nat.eqb_eq in Hl. now apply songs_suggested with filterOutput fs.
  - apply Nat.eqb_neq in Hl. now apply vector_misaligned with filterOutput fs vector.
Qed.

Lemma smart_search_proposes w req_body userInput songs :
  proposes w req_body userInput songs ->
  filter_popular (flat (snd (search_from w 0 songs))) = None ->
  smart_search w req_body
  = (searched w userInput songs, failed "Error generating song suggestions").
Proof.
  intros [output suggestions Hu Ha Hp Ht Hs] Hf.
  unfold smart_search, pipeline, generateContent, resolve.
  rewrite Hu, Ha. cbn -[clean]. rewrite Hp. cbn -[clean]. rewrite Ht, Hs.
  cbn [negb]. rewrite search_all_run. cbn [bind]. rewrite Hf. cbn.
  now rewrite app_nil_r.
Qed.

Lemma smart_search_first_stage w req_body userInput :
  userInput_of req_body = ret userInput ->
  smart_search w req_body = run (pipeline w userInput).
Proof.
  intros Hu. unfold smart_search. rewrite Hu. cbn [bind ret].
  now destruct (pipeline w userInput) as [t [r|r]].
Qed.

Lemma smart_search_answered w req_body userInput songs final text out :
  gathers w req_body userInput songs final ->
  ToString userInput = Some text ->
  filter_answer w = Some out ->
  smart_search w req_body
  = (asked w userInput songs text final,
     match JSON.parse (clean out) with
     | Some fs => snd (run (respond final fs))
     | None => failed "Failed to parse filter response from AI"
     end).
Proof.
  intros Hg Hx Hb. rewrite (smart_search_gathers _ _ _ _ _ Hg).
  unfold judge, generateContent. rewrite Hx, Hb. cbn -[clean].
  destruct (JSON.parse (clean out)) as [fs|]; [|reflexivity].
  pose proof (respond_silent final fs) as E.
  destruct (respond final fs) as [t [r|r]]; cbn in E |- *; now subst.
Qed.

(** The exits are the handler's: what an exit states is what the handler
    does. *)
Lemma outcome_sound w req_body t r :
  outcome w req_body t r -> smart_search w req_body = (t, r).
Proof.
  intros O. destruct O as
      [Hn | ui Hu Ha | ui out Hu Ha Hp | ui out su Hu Ha Hp Hc
       | ui songs Hq Hf | ui songs final Hg Hx
       | ui songs final text Hg Hx Hb
       | ui songs final text out Hg Hx Hb Hy
       | ui songs final text out fs Hg Hx Hb Hy Hc
       | ui songs final text out fs vector Hg Hx Hb Hy Hm Hl
       | ui songs final text out fs vector Hg Hx Hb Hy Hm Hl].
  - unfold smart_search, userInput_of. now rewrite Hn.
  - rewrite (smart_search_first_stage _ _ _ Hu).
    unfold pipeline, generateContent. now rewrite Ha.
  - rewrite (smart_search_first_stage _ _ _ Hu).
    unfold pipeline, generateContent. rewrite Ha. cbn -[clean]. now rewrite Hp.
  - rewrite (smart_search_first_stage _ _ _ Hu).
    unfold pipeline, generateContent, resolve. rewrite Ha. cbn -[clean].
    rewrite Hp. destruct (ToBoolean su); [|reflexivity]. cbn [negb andb] in *.
    destruct (Get su (lit "songs")); try reflexivity. discriminate.
  - now apply smart_search_proposes.
  - rewrite (smart_search_gathers _ _ _ _ _ Hg). unfold judge. rewrite Hx.
    cbn. now rewrite app_nil_r.
  - rewrite (smart_search_gathers _ _ _ _ _ Hg).
    unfold judge, generateContent. rewrite Hx, Hb. reflexivity.
  - rewrite (smart_search_answered _ _ _ _ _ _ _ Hg Hx Hb). now rewrite Hy.
  - rewrite (smart_search_answered _ _ _ _ _ _ _ Hg Hx Hb). rewrite Hy.
    unfold respond. destruct (ToBoolean fs); [|reflexivity]. cbn [negb andb] in *.
    destruct (Get fs (lit "mySuggestion")); try reflexivity. discriminate.
  - rewrite (smart_search_answered _ _ _ _ _ _ _ Hg Hx Hb). rewrite Hy.
    unfold respond. rewrite (Get_array_truthy _ _ _ Hm), Hm. cbn [negb].
    apply Nat.eqb_neq in Hl. now rewrite Hl.
  - rewrite (smart_search_answered _ _ _ _ _ _ _ Hg Hx Hb). rewrite Hy.
    now rewrite (respond_equal_lengths _ _ _ Hl Hm).
Qed.

(** The runs of the further scenarios, by evaluation. *)
Ltac run_edge :=
  repeat lazymatch goal with
         | |- judges _ _ _ _ => eapply Judges
         | |- gathers _ _ _ _ _ => eapply Gathers
         | |- proposes _ _ _ _ => eapply Proposes
         | |- _ = _ => vm_compute; reflexivity
         end.

Ltac exits w req_body :=
  let H := fresh "Hout" in
  pose proof (smart_search_outcome w req_body) as H;
  destruct (smart_search w req_body) as [t r]; cbn [fst snd] in *;
  destruct H as
      [Hn | ui Hu Ha | ui out Hu Ha Hp | ui out su Hu Ha Hp Hc
       | ui songs Hq Hf | ui songs final Hg Hx
       | ui songs final txt Hg Hx Hb
       | ui songs final txt out Hg Hx Hb Hy
       | ui songs final txt out fs Hg Hx Hb Hy Hc
       | ui songs final txt out fs vector Hg Hx Hb Hy Hm Hl
       | ui songs final txt out fs vector Hg Hx Hb Hy Hm Hl].

Lemma smart_search_status w req_body :
  let r := snd (smart_search w req_body) in
  (status r = 200 /\ exists l, json r = SuggestedSongs l)
  \/ (status r = 500 /\ exists e, json r = Error e /\ In e error_messages).
Proof.
  cbn zeta. exits w req_body;
    try (left; split; [reflexivity|eexists; reflexivity]);
    right; (split; [reflexivity|]); eexists; (split; [reflexivity|]);
      cbn; tauto.
Qed.

(** X5.  The response of [/smart-search] is either 200 with
    [suggestedSongs] or 500 with one of the handler's six error messages;
    no other status and no mixed body is ever sent. *)
Theorem smart_search_answers_200_or_500 w req_body :
  let r := snd (smart_search w req_body) in
  (status r = 200 /\ exists l, json r = SuggestedSongs l)
  \/ (status r = 500 /\ exists e, json r = Error e /\ In e error_messages).
Proof. exact (smart_search_status w req_body). Qed.

(** X6.  A request makes at most two calls to the oracle, and every catalog
    search lies between them: the calls are none at all, or the first
    oracle call followed by at most one search per proposed title, followed
    or not by the second oracle call, which is then the last call. *)
Theorem calls_in_order w req_body :
  fst (smart_search w req_body) = []
  \/ exists userInput fetches tail,
       fst (smart_search w req_body)
       = Generate (SuggestPrompt userInput) :: fetches ++ tail
       /\ Forall (fun e => is_fetch e = true) fetches
       /\ (tail = [] \/ exists text l, tail = [Generate (FilterPrompt text l)])
       /\ (fetches = []
           \/ exists songs, proposes w req_body userInput songs
                            /\ length fetches <= length songs).
Proof.
  assert (P : forall ui songs final,
             gathers w req_body ui songs final -> proposes w req_body ui songs)
    by (intros ui songs final [? ? ? ? ? ? ? _]; econstructor; eassumption).
  assert (S : forall ui songs (tail : list event),
             proposes w req_body ui songs ->
             (tail = [] \/ exists text l, tail = [Generate (FilterPrompt text l)]) ->
             exists userInput fetches tail',
               searched w ui songs ++ tail
               = Generate (SuggestPrompt userInput) :: fetches ++ tail'
               /\ Forall (fun e => is_fetch e = true) fetches
               /\ (tail' = [] \/ exists text l,
                                   tail' = [Generate (FilterPrompt text l)])
               /\ (fetches = []
                   \/ exists songs, proposes w req_body userInput songs
                                    /\ length fetches <= length songs)).
  { intros ui songs tail Hq Ht.
    exists ui, (fst (search_from w 0 songs)), tail.
    destruct (search_from_fetches w songs 0) as [F L].
    repeat split; auto. right. exists songs. auto. }
  exits w req_body; auto; right;
    try (exists ui, [], []; repeat split; auto; fail).
  - rewrite <- (app_nil_r (searched w ui songs)). apply S; auto.
  - rewrite <- (app_nil_r (searched w ui songs)). apply S; eauto.
  - apply S; eauto.
  - apply S; eauto.
  - apply S; eauto.
  - apply S; eauto.
  - apply S; eauto.
Qed.

Lemma smart_search_calls_nonempty_status w req_body :
  status (snd (smart_search w req_body)) <> 403.
Proof.
  destruct (smart_search_status w req_body) as [[E _]|[E _]]; cbn zeta in E;
    rewrite E; discriminate.
Qed.

(** X7.  Behind the key check, [/smart-search] answers 403 exactly when the
    [x-api-key] header is not a non-empty string equal to the configured
    key, and a request that makes any call to the oracle or the catalog has
    sent the right key. *)
Theorem smart_search_forbidden_iff CLIENT_API_KEY w apiKey req_body :
  let valid := exists key, key <> [] /\ apiKey = Some key
                           /\ CLIENT_API_KEY = Some key in
  (status (snd (post_smart_search CLIENT_API_KEY w apiKey req_body)) = 403
   <-> ~ valid)
  /\ (fst (post_smart_search CLIENT_API_KEY w apiKey req_body) <> [] -> valid)
  /\ (valid -> post_smart_search CLIENT_API_KEY w apiKey req_body
               = smart_search w req_body).
Proof.
  cbn zeta. unfold post_smart_search.
  pose proof (checkApiKey_None CLIENT_API_KEY apiKey) as I.
  destruct (checkApiKey_status CLIENT_API_KEY apiKey) as [E|E]; rewrite E in *.
  - assert (V := proj1 I eq_refl). split; [|split]; auto.
    split; [|tauto]. intros H.
    now apply smart_search_calls_nonempty_status in H.
  - cbn. split; [|split].
    + split; auto. intros _ V. apply I in V. discriminate.
    + congruence.
    + intros V. apply I in V. discriminate.
Qed.

Lemma smart_search_forbidden_iff_witness :
  fst (post_smart_search (Some secret) shape_of_you (Some secret)
                         shape_of_you_request) <> []
  /\ (exists key, key <> [] /\ Some secret = Some key
                  /\ Some secret = Some key)
  /\ status (snd (post_smart_search None shape_of_you (Some secret)
                                     shape_of_you_request)) = 403.
Proof.
  assert (C : fst (post_smart_search (Some secret) shape_of_you (Some secret)
                                     shape_of_you_request) <> [])
    by (vm_compute; discriminate).
  split; [exact C|]. split.
  - exact (proj1 (proj2 (smart_search_forbidden_iff
                           (Some secret) shape_of_you (Some secret)
                           shape_of_you_request)) C).
  - apply (proj1 (smart_search_forbidden_iff
                    None shape_of_you (Some secret) shape_of_you_request)).
    intros [key [_ [_ K]]]. discriminate K.
Defined.

Lemma asked_judges w req_body userInput songs final text out fs :
  gathers w req_body userInput songs final ->
  ToString userInput = Some text ->
  filter_answer w = Some out ->
  JSON.parse (clean out) = Some fs ->
  judges w req_body final fs.
Proof. intros. econstructor; eassumption. Qed.

(** X8.  A request is answered with songs exactly when it gets a parsed
    second answer whose [mySuggestion] is an array as long as the candidate
    sequence; the songs are then the candidates flagged 1, and the last
    call made was the second oracle call, showing the oracle one projected
    song per flag. *)
Theorem suggested_iff_aligned w req_body suggested :
  json (snd (smart_search w req_body)) = SuggestedSongs suggested
  <-> exists final fs vector,
        judges w req_body final fs
        /\ Get fs (lit "mySuggestion") = VArr vector
        /\ length vector = length final
        /\ suggested = actuallyFinalFilteredSongs final vector
        /\ exists userInput songs text,
             fst (smart_search w req_body)
             = asked w userInput songs text final
             /\ length (map project final) = length vector.
Proof.
  split.
  - intros H. exits w req_body; try discriminate.
    cbn in H. injection H as <-.
    exists final, fs, vector. repeat split; auto.
    + eapply asked_judges; eassumption.
    + exists ui, songs, txt. split; auto. now rewrite length_map.
  - intros [final [fs [vector [J [G [L [-> _]]]]]]].
    rewrite (smart_search_judges _ _ _ _ J).
    now rewrite (respond_equal_lengths _ _ _ L G).
Qed.

(** X9.  The error "Suggestion array length mismatch" is sent exactly when
    the second answer parsed to a [mySuggestion] array whose length is not
    the number of candidates: it has no other cause. *)
Theorem mismatch_error_iff w req_body :
  json (snd (smart_search w req_body))
  = Error "Suggestion array length mismatch"
  <-> exists final fs vector,
        judges w req_body final fs
        /\ Get fs (lit "mySuggestion") = VArr vector
        /\ length vector <> length final.
Proof.
  split.
  - intros H. exits w req_body; try discriminate.
    exists final, fs, vector. repeat split; auto.
    eapply asked_judges; eassumption.
  - intros [final [fs [vector [J [G L]]]]].
    rewrite (smart_search_judges _ _ _ _ J).
    unfold respond. rewrite (Get_array_truthy _ _ _ G), G. cbn [negb].
    apply Nat.eqb_neq in L. now rewrite L.
Qed.

(** X10.  The error "Error generating song suggestions" has five causes and
    no other: the request has no body; the first oracle call throws; a
    comparison of a play count with the threshold throws; the user input
    cannot be converted to a string for the second prompt; the second
    oracle call throws. *)
Theorem generic_error_iff w req_body :
  json (snd (smart_search w req_body))
  = Error "Error generating song suggestions"
  <-> is_nullish req_body = true
      \/ (exists userInput, userInput_of req_body = ret userInput
                            /\ suggest_answer w = None)
      \/ (exists userInput songs,
            proposes w req_body userInput songs
            /\ filter_popular (flat (snd (search_from w 0 songs))) = None)
      \/ (exists userInput songs final,
            gathers w req_body userInput songs final
            /\ (ToString userInput = None
                \/ filter_answer w = None)).
Proof.
  split.
  - intros H. exits w req_body; try discriminate; eauto 10.
  - intros [Hn|[[ui [Hu Ha]]|[[ui [songs [Hq Hf]]]|[ui [songs [final [Hg Hc]]]]]]].
    + now rewrite (outcome_sound _ _ _ _ (body_missing w req_body Hn)).
    + now rewrite (outcome_sound _ _ _ _
                     (suggest_call_throws w req_body ui Hu Ha)).
    + now rewrite (outcome_sound _ _ _ _
                     (comparison_throws w req_body ui songs Hq Hf)).
    + destruct (ToString ui) as [text|] eqn:Hx.
      * destruct Hc as [Hc|Hc]; [discriminate|].
        now rewrite (outcome_sound _ _ _ _
                       (filter_call_throws w req_body ui songs final text
                                           Hg Hx Hc)).
      * now rewrite (outcome_sound _ _ _ _
                       (input_unprintable w req_body ui songs final Hg Hx)).
Qed.

(** ** Records and inputs that make the request fail *)

Lemma filter_popular_throws l c :
  In c l -> ge (playCount c) threshold = None ->
  filter_popular (map Some l) = None.
Proof.
  induction l as [|x l IH]; cbn [In map filter_popular]; [tauto|].
  intros [->|H] G.
  - now rewrite G.
  - destruct (ge (playCount x) threshold); auto. now rewrite (IH H G).
Qed.

Lemma ge_object_throws props y :
  has_own props (lit "toString") = true -> ge (VObj props) y = None.
Proof.
  intros H. unfold ge, ToNumber, ToPrimitive. cbn [ToString]. now rewrite H.
Qed.

(** X11.  A catalog hit whose [playCount] is an object with a property
    named [toString] is not skipped like a failed search: comparing it
    with the threshold throws, and the whole request is answered 500
    "Error generating song suggestions" after the catalog searches,
    without a second oracle call, whatever the other titles found. *)
Theorem unreadable_play_count_fails_request
        w req_body userInput songs j song c props :
  proposes w req_body userInput songs ->
  nth_error songs j = Some song ->
  In c (hits (snd (search w j song))) ->
  playCount c = VObj props ->
  has_own props (lit "toString") = true ->
  smart_search w req_body
  = (searched w userInput songs, failed "Error generating song suggestions").
Proof.
  intros Hq Hj Hc Hp Ht. apply smart_search_proposes; auto.
  rewrite filter_popular_flat. apply filter_popular_throws with c.
  - apply in_concat. exists (hits (snd (search w j song))). split; auto.
    apply in_map. apply nth_error_In with j.
    now rewrite (search_from_nth w songs 0 j song Hj).
  - rewrite Hp. now apply ge_object_throws.
Qed.

Lemma unreadable_play_count_fails_request_witness :
  proposes broken_record shape_of_you_request (VStr (lit "Shape of You"))
           (titles broken_record)
  /\ nth_error (titles broken_record) 1 = Some (VStr (lit "Thunder"))
  /\ In broken (hits (snd (search broken_record 1 (VStr (lit "Thunder")))))
  /\ playCount broken = VObj [(lit "toString", VNum (of_Z 1))]
  /\ smart_search broken_record shape_of_you_request
     = ([Generate (SuggestPrompt (VStr (lit "Shape of You")));
         Fetch (lit "Believer"); Fetch (lit "Thunder")],
        failed "Error generating song suggestions").
Proof.
  assert (P : proposes broken_record shape_of_you_request
                       (VStr (lit "Shape of You")) (titles broken_record))
    by run_edge.
  assert (N : nth_error (titles broken_record) 1 = Some (VStr (lit "Thunder")))
    by (vm_compute; reflexivity).
  assert (I : In broken
                 (hits (snd (search broken_record 1 (VStr (lit "Thunder"))))))
    by (vm_compute; auto).
  assert (C : playCount broken = VObj [(lit "toString", VNum (of_Z 1))])
    by (vm_compute; reflexivity).
  split; [exact P|]. split; [exact N|]. split; [exact I|]. split; [exact C|].
  exact (unreadable_play_count_fails_request _ _ _ _ _ _ _ _ P N I C eq_refl).
Defined.

(** X12.  A request whose [songs] is an object with a property named
    [toString] is never answered with songs: if it gets past the catalog
    stage, building the second prompt throws, and the response is 500 in
    every world. *)
Theorem unprintable_input_never_succeeds w req_body body_props props :
  req_body = VObj body_props ->
  own body_props (lit "songs") = Some (VObj props) ->
  has_own props (lit "toString") = true ->
  status (snd (smart_search w req_body)) = 500
  /\ forall songs final,
       gathers w req_body (VObj props) songs final ->
       smart_search w req_body
       = (searched w (VObj props) songs,
          failed "Error generating song suggestions").
Proof.
  intros -> Hs Ht.
  assert (U : userInput_of (VObj body_props) = ret (VObj props))
    by (unfold userInput_of; cbn [is_nullish Get]; now rewrite Hs).
  assert (X : ToString (VObj props) = None) by (cbn [ToString]; now rewrite Ht).
  assert (E : forall ui songs final,
             gathers w (VObj body_props) ui songs final -> ui = VObj props).
  { intros ui songs final [? ? Hu _ _ _ _ _]. rewrite U in Hu.
    now injection Hu. }
  split.
  - exits w (VObj body_props); try reflexivity.
    apply E in Hg. subst ui. congruence.
  - intros songs final Hg.
    exact (outcome_sound _ _ _ _
             (input_unprintable w (VObj body_props) (VObj props) songs final
                                Hg X)).
Qed.

Lemma unprintable_input_never_succeeds_witness :
  unprintable_request
  = VObj [(lit "songs", VObj [(lit "toString", VNum (of_Z 1))])]
  /\ status (snd (smart_search shape_of_you unprintable_request)) = 500
  /\ fst (smart_search shape_of_you unprintable_request)
     = [Generate (SuggestPrompt (VObj [(lit "toString", VNum (of_Z 1))]));
        Fetch (lit "Shape%20of%20You%20-%20Ed%20Sheeran")].
Proof.
  assert (R : unprintable_request
              = VObj [(lit "songs", VObj [(lit "toString", VNum (of_Z 1))])])
    by (vm_compute; reflexivity).
  split; [exact R|]. split.
  - exact (proj1 (unprintable_input_never_succeeds
                    shape_of_you unprintable_request _ _ R eq_refl eq_refl)).
  - vm_compute; reflexivity.
Defined.

Lemma suggested_popular w req_body suggested :
  json (snd (smart_search w req_body)) = SuggestedSongs suggested ->
  Forall (fun song => popular song = true) suggested.
Proof.
  intros H. apply success_inv in H.
  destruct H as [final [fs [vector [J [G [L ->]]]]]].
  destruct (smart_search_judges_trace _ _ _ _ J)
    as [userInput [songs [text [Hg _]]]].
  pose proof (gathers_final _ _ _ _ _ Hg) as F.
  apply Forall_forall. intros c Hc.
  rewrite actuallyFinalFilteredSongs_combine in Hc.
  apply in_map_iff in Hc. destruct Hc as [[c' flag] [<- Hc]].
  apply filter_In in Hc. destruct Hc as [Hc _].
  apply in_combine_l in Hc. rewrite F in Hc.
  apply in_concat in Hc. destruct Hc as [g [Hg' Hc]].
  apply in_map_iff in Hg'. destruct Hg' as [r [<- _]].
  apply filter_In in Hc. now destruct Hc.
Qed.

(** X13.  A catalog record without a [playCount] (or with a [null] one, or
    a record that is not an object at all) gets the default 0 and so never
    passes the threshold: the candidate made from it is in no response,
    also when the catalog served it and the oracle flags every candidate
    1. *)
Theorem record_without_play_count_never_suggested w req_body songData suggested :
  is_nullish (songData?."playCount") = true ->
  json (snd (smart_search w req_body)) = SuggestedSongs suggested ->
  playCount (toCandidate songData) = VNum (of_Z 0)
  /\ ge (playCount (toCandidate songData)) threshold = Some false
  /\ popular (toCandidate songData) = false
  /\ ~ In (toCandidate songData) suggested.
Proof.
  intros N H.
  assert (Z : playCount (toCandidate songData) = VNum (of_Z 0)).
  { unfold toCandidate. cbn [playCount]. unfold nullish_or. now rewrite N. }
  assert (G : ge (playCount (toCandidate songData)) threshold = Some false).
  { rewrite Z. vm_compute. reflexivity. }
  assert (P : popular (toCandidate songData) = false).
  { unfold popular. now rewrite G. }
  split; [exact Z|]. split; [exact G|]. split; [exact P|]. intros I.
  apply suggested_popular in H. rewrite Forall_forall in H.
  apply H in I. congruence.
Qed.

Lemma record_without_play_count_never_suggested_witness :
  is_nullish (uncounted_record?."playCount") = true
  /\ hits (snd (search uncounted 0 (VStr (lit "Believer"))))
     = [believer; toCandidate uncounted_record]
  /\ json (snd (smart_search uncounted shape_of_you_request))
     = SuggestedSongs [believer]
  /\ playCount (toCandidate uncounted_record) = VNum (of_Z 0)
  /\ ~ In (toCandidate uncounted_record) [believer].
Proof.
  assert (H : json (snd (smart_search uncounted shape_of_you_request))
              = SuggestedSongs [believer]) by (vm_compute; reflexivity).
  split; [reflexivity|].
  split; [vm_compute; reflexivity|].
  split; [exact H|].
  pose proof (record_without_play_count_never_suggested
                uncounted shape_of_you_request uncounted_record [believer]
                eq_refl H) as [Z [_ [_ I]]].
  split; [exact Z|exact I].
Defined.

(** ** Applying the flags (lines 268-270) *)

Lemma flagged_all candidates vector :
  length vector = length candidates ->
  Forall (fun flag => flag = VNum (of_Z 1)) vector ->
  map fst (filter flagged (combine candidates vector)) = candidates.
Proof.
  revert vector; induction candidates as [|c cs IH]; intros [|f v] L F;
    try discriminate; auto.
  inversion F as [|? ? Hf Fv]; subst. cbn [combine filter].
  unfold flagged at 1. cbn [snd strict_equals].
  replace (JSNumber.eqb (of_Z 1) (of_Z 1)) with true by (vm_compute; reflexivity).
  cbn [map fst]. f_equal. apply IH; auto.
Qed.

Lemma flagged_none candidates vector :
  Forall (fun flag => flag <> VNum (of_Z 1)) vector ->
  map fst (filter flagged (combine candidates vector)) = [].
Proof.
  revert vector; induction candidates as [|c cs IH]; intros [|f v] F; auto.
  inversion F as [|? ? Hf Fv]; subst. cbn [combine filter].
  unfold flagged at 1. cbn [snd].
  destruct (strict_equals f (of_Z 1)) eqn:E; [|now apply IH].
  apply strict_equals_one in E. contradiction.
Qed.

(** X14.  With as many flags as candidates: when every flag is the number 1
    the result is the whole candidate sequence, unchanged; when no flag is
    the number 1 the result is empty. *)
Theorem all_flags_or_no_flag candidates vector :
  length vector = length candidates ->
  (Forall (fun flag => flag = VNum (of_Z 1)) vector ->
   actuallyFinalFilteredSongs candidates vector = candidates)
  /\ (Forall (fun flag => flag <> VNum (of_Z 1)) vector ->
      actuallyFinalFilteredSongs candidates vector = []).
Proof.
  intros L. rewrite actuallyFinalFilteredSongs_combine. split.
  - now apply flagged_all.
  - apply flagged_none.
Qed.

Lemma all_flags_or_no_flag_witness :
  length [VNum (of_Z 1); VNum (of_Z 1)] = length [believer; thunder]
  /\ Forall (fun flag => flag = VNum (of_Z 1)) [VNum (of_Z 1); VNum (of_Z 1)]
  /\ actuallyFinalFilteredSongs [believer; thunder]
                                [VNum (of_Z 1); VNum (of_Z 1)]
     = [believer; thunder].
Proof.
  assert (F : Forall (fun flag => flag = VNum (of_Z 1))
                     [VNum (of_Z 1); VNum (of_Z 1)])
    by (repeat constructor).
  split; [reflexivity|]. split; [exact F|].
  exact (proj1 (all_flags_or_no_flag [believer; thunder]
                  [VNum (of_Z 1); VNum (of_Z 1)] eq_refl) F).
Defined.

(** ** Reading a catalog record (lines 170-180) *)

Lemma get_own props k v :
  own props (lit k) = Some v -> (VObj props)?.k = v.
Proof. intros H. unfold opt_get. cbn [is_nullish Get]. now rewrite H. Qed.

Lemma nth_undefined (l : list value) n :
  nth n l VUndefined = match nth_error l n with
                       | Some v => v
                       | None => VUndefined
                       end.
Proof.
  revert n; induction l as [|x l IH]; intros [|n]; cbn [nth nth_error]; auto.
Qed.

(** X15.  The image of a candidate is the [url] of the third entry of the
    record's [image] array; a record with fewer than three images, or
    whose third image has no [url], gets the placeholder image. *)
Theorem image_is_third_entry props images :
  own props (lit "image") = Some (VArr images) ->
  image (toCandidate (VObj props))
  = match nth_error images 2 with
    | Some entry => entry?."url" ?? placeholderImage
    | None => placeholderImage
    end.
Proof.
  intros H. unfold toCandidate. cbn [image]. rewrite (get_own _ _ _ H).
  unfold opt_get at 2. cbn [is_nullish].
  replace (Get (VArr images) (lit "2")) with (nth 2 images VUndefined)
    by reflexivity.
  rewrite nth_undefined. now destruct (nth_error images 2).
Qed.

Lemma image_is_third_entry_witness :
  own two_images (lit "image") = Some (VArr two_entries)
  /\ image (toCandidate (VObj two_images)) = placeholderImage
  /\ image (toCandidate (VObj three_images)) = VStr (lit "large").
Proof.
  split; [reflexivity|]. split.
  - exact (image_is_third_entry two_images two_entries eq_refl).
  - exact (image_is_third_entry three_images three_entries eq_refl).
Defined.

(** X16.  The artist of a candidate is the [name] of the first entry of the
    record's [artists.primary] array, whatever stands after it; with an
    empty [primary] array, or a first entry without a [name], it is
    "Unknown Artist". *)
Theorem artist_is_first_primary props artists primary :
  own props (lit "artists") = Some (VObj artists) ->
  own artists (lit "primary") = Some (VArr primary) ->
  artist (toCandidate (VObj props))
  = match primary with
    | first :: _ => first?."name" ?? VStr (lit "Unknown Artist")
    | [] => VStr (lit "Unknown Artist")
    end.
Proof.
  intros H P. unfold toCandidate. cbn [artist]. rewrite (get_own _ _ _ H).
  rewrite (get_own _ _ _ P). unfold opt_get at 2. cbn [is_nullish].
  replace (Get (VArr primary) (lit "0")) with (nth 0 primary VUndefined)
    by reflexivity.
  now destruct primary.
Qed.

Lemma artist_is_first_primary_witness :
  own [(lit "artists", VObj [(lit "primary", VArr [])])] (lit "artists")
  = Some (VObj [(lit "primary", VArr [])])
  /\ own [(lit "primary", VArr [])] (lit "primary") = Some (VArr [])
  /\ artist (toCandidate
               (VObj [(lit "artists", VObj [(lit "primary", VArr [])])]))
     = VStr (lit "Unknown Artist").
Proof.
  split; [reflexivity|]. split; [reflexivity|].
  exact (artist_is_first_primary
           [(lit "artists", VObj [(lit "primary", VArr [])])]
           [(lit "primary", VArr [])] [] eq_refl eq_refl).
Defined.

(** ** Searching the catalog for a title (lines 157-192) *)

(** X17.  The search for a title issues at most one fetch.  It issues none
    exactly when the title has no URL form (its conversion to a string
    throws, or the string has a surrogate that is not half of a pair); the
    title then counts as a failed search, with no hits, and the other
    titles are searched all the same. *)
Theorem title_without_url_form_is_skipped w i song :
  length (fst (search w i song)) <= 1
  /\ (fst (search w i song) = []
      <-> ToString song = None
          \/ exists s, ToString song = Some s /\ encodeURIComponent s = None)
  /\ (fst (search w i song) = [] -> snd (search w i song) = None)
  /\ forall before after,
       snd (search_from w 0 (before ++ song :: after))
       = snd (search_from w 0 before)
         ++ snd (search w (length before) song)
         :: snd (search_from w (S (length before)) after).
Proof.
  split; [|split; [|split]].
  - unfold search. destruct (ToString song) as [s|]; auto.
    destruct (encodeURIComponent s); auto.
  - unfold search. destruct (ToString song) as [s|]; [|tauto].
    destruct (encodeURIComponent s) eqn:E; cbn [fst].
    + split; [discriminate|]. intros [H|[s' [H1 H2]]]; [discriminate|].
      injection H1 as <-. congruence.
    + split; auto. intros _. right. now exists s.
  - unfold search. destruct (ToString song) as [s|]; auto.
    destruct (encodeURIComponent s); auto. discriminate.
  - intros before after.
    assert (G : forall k,
               snd (search_from w k (before ++ song :: after))
               = snd (search_from w k before)
                 ++ snd (search w (k + length before) song)
                 :: snd (search_from w (S (k + length before)) after)).
    { induction before as [|b before IH]; intros k; cbn [app length search_from].
      - rewrite Nat.add_0_r.
        destruct (search w k song), (search_from w (S k) after). reflexivity.
      - specialize (IH (S k)).
        destruct (search w k b) as [t r].
        destruct (search_from w (S k) (before ++ song :: after)) as [ts rs].
        destruct (search_from w (S k) before) as [ts' rs'].
        cbn [snd app] in *. rewrite IH.
        now rewrite Nat.add_succ_r. }
    exact (G 0).
Qed.

Lemma title_without_url_form_is_skipped_witness :
  fst (search shape_of_you 0 lone_surrogate) = []
  /\ snd (search shape_of_you 0 lone_surrogate) = None.
Proof.
  assert (E : fst (search shape_of_you 0 lone_surrogate) = [])
    by (vm_compute; reflexivity).
  split; [exact E|].
  exact (proj1 (proj2 (proj2
           (title_without_url_form_is_skipped shape_of_you 0 lone_surrogate)))
           E).
Defined.

(** ** A request without candidates (lines 195-272) *)




(** ** The single-stage endpoint (lines 50-86) *)

(** X19.  [/filter-songs] answers 200 exactly when the request has a body
    and the cleaned answer of the oracle is valid JSON, and it passes on the
    parsed value whatever it is: an object without [suggestions], a number
    or [null] go out as [suggestedSongs].  Every other run answers the one
    500 error.  One oracle call is made, none when the body is absent. *)
Theorem filter_songs_passes_any_json answer req_body :
  (forall v,
      snd (FilterSongs.filter_songs answer req_body)
      = {| FilterSongs.status := 200;
           FilterSongs.json := FilterSongs.SuggestedSongs v |}
      <-> is_nullish req_body = false
          /\ exists output, answer = Some output
                            /\ JSON.parse (clean output) = Some v)
  /\ (FilterSongs.status (snd (FilterSongs.filter_songs answer req_body))
      <> 200 ->
      snd (FilterSongs.filter_songs answer req_body) = FilterSongs.failure)
  /\ (fst (FilterSongs.filter_songs answer req_body) = []
      <-> is_nullish req_body = true)
  /\ length (fst (FilterSongs.filter_songs answer req_body)) <= 1.
Proof.
  unfold FilterSongs.filter_songs, FilterSongs.failure.
  destruct (is_nullish req_body); cbn [fst snd length].
  - split; [|split; [|split]]; auto.
    + intros v. split; [discriminate|]. intros [H _]. discriminate.
    + tauto.
  - split; [|split; [|split]]; auto.
    + intros v. destruct answer as [output|].
      * destruct (JSON.parse (clean output)) as [s|] eqn:P.
        -- split.
           ++ intros H. injection H as <-. split; auto. now exists output.
           ++ intros [_ [o [E Q]]]. injection E as <-. congruence.
        -- split; [discriminate|].
           intros [_ [o [E Q]]]. injection E as <-. congruence.
      * split; [discriminate|]. intros [_ [o [E _]]]. discriminate.
    + destruct answer as [output|]; auto.
      destruct (JSON.parse (clean output)); auto.
      cbn. intros H. now contradiction H.
    + split; discriminate.
Qed.

Lemma filter_songs_passes_any_json_witness :
  snd (FilterSongs.filter_songs (Some forty_two) shape_of_you_request)
  = {| FilterSongs.status := 200;
       FilterSongs.json := FilterSongs.SuggestedSongs (VNum (of_Z 42)) |}.
Proof.
  apply (proj1 (filter_songs_passes_any_json (Some forty_two)
                                             shape_of_you_request)).
  split; [reflexivity|]. exists forty_two. split; [reflexivity|].
  vm_compute; reflexivity.
Defined.

(** ** Code fences around the answers *)

Lemma clean_in_fence tag answer :
  fence_free answer = true ->
  option_map clean (in_fence tag answer) = option_map clean answer.
Proof.
  destruct answer as [output|]; [|reflexivity].
  cbn [fence_free in_fence option_map].
  intros F. apply negb_true_iff in F.
  now rewrite (clean_fenced tag _ F), (clean_plain _ F).
Qed.

Lemma search_from_ext w w' songs :
  (forall i, catalog w i = catalog w' i) ->
  forall k, search_from w k songs = search_from w' k songs.
Proof.
  intros C. induction songs as [|song songs IH]; intros k; [reflexivity|].
  cbn [search_from]. rewrite (IH (S k)). unfold search. now rewrite (C k).
Qed.

(** The handler reads the oracle's answers through [clean] only. *)
Lemma smart_search_ext w w' req_body :
  option_map clean (suggest_answer w) = option_map clean (suggest_answer w') ->
  (forall i, catalog w i = catalog w' i) ->
  option_map clean (filter_answer w) = option_map clean (filter_answer w') ->
  smart_search w req_body = smart_search w' req_body.
Proof.
  intros A C B.
  assert (J : forall ui final, judge w ui final = judge w' ui final).
  { intros ui final. unfold judge, generateContent.
    destruct (ToString ui) as [s|]; [|reflexivity].
    destruct (filter_answer w) as [o|], (filter_answer w') as [o'|];
      try discriminate; try reflexivity.
    cbn [option_map] in B. injection B as B. cbn -[clean]. now rewrite B. }
  assert (R : forall ui su, resolve w ui su = resolve w' ui su).
  { intros ui su. unfold resolve.
    destruct (negb (ToBoolean su)); [reflexivity|].
    destruct (Get su (lit "songs")) as [| | | | |songs|]; try reflexivity.
    rewrite !search_all_run, (search_from_ext w w' songs C 0).
    cbn [bind].
    destruct (filter_popular (flat (snd (search_from w' 0 songs))));
      [now rewrite J|reflexivity]. }
  unfold smart_search. destruct (userInput_of req_body) as [t [ui|r]];
    [|reflexivity].
  cbn [bind]. unfold pipeline, generateContent.
  destruct (suggest_answer w) as [o|], (suggest_answer w') as [o'|];
    try discriminate; try reflexivity.
  cbn [option_map] in A. injection A as A. cbn -[clean]. rewrite A.
  destruct (JSON.parse (clean o')); [now rewrite R|reflexivity].
Qed.

(** X20.  Code fences around the oracle's answers are invisible: when an
    answer holds no run of three backticks, putting it inside a fence, with
    or without the [json] tag, changes neither the calls nor the response
    of [/smart-search], and the same holds for [/filter-songs]. *)
Theorem fences_are_invisible w answer (first second tag : bool) req_body :
  fence_free (suggest_answer w) = true ->
  fence_free (filter_answer w) = true ->
  fence_free answer = true ->
  smart_search (with_fences first second w) req_body
  = smart_search w req_body
  /\ FilterSongs.filter_songs (in_fence tag answer) req_body
     = FilterSongs.filter_songs answer req_body.
Proof.
  intros F1 F2 F. split.
  - apply smart_search_ext; cbn [with_fences suggest_answer catalog
                                  filter_answer]; auto using clean_in_fence.
  - pose proof (clean_in_fence tag answer F) as E.
    unfold FilterSongs.filter_songs.
    destruct answer as [output|]; [|reflexivity].
    cbn [in_fence option_map] in E. injection E as E.
    cbn [in_fence option_map]. now rewrite E.
Qed.

Lemma fences_are_invisible_witness :
  smart_search (with_fences true false shape_of_you) shape_of_you_request
  = smart_search shape_of_you shape_of_you_request
  /\ FilterSongs.filter_songs (in_fence true (Some recommendation))
                              shape_of_you_request
     = FilterSongs.filter_songs (Some recommendation) shape_of_you_request.
Proof.
  apply (fences_are_invisible shape_of_you (Some recommendation)
                              true false true shape_of_you_request);
    vm_compute; reflexivity.
Defined.

(** ** The key check in front of [/filter-songs] (lines 34, 50-86) *)

Lemma filter_songs_status answer req_body :
  FilterSongs.status (snd (FilterSongs.filter_songs answer req_body)) <> 403.
Proof.
  unfold FilterSongs.filter_songs.
  destruct (is_nullish req_body); [discriminate|].
  destruct answer as [output|]; [|discriminate].
  cbn -[clean]. destruct (JSON.parse (clean output)); discriminate.
Qed.

(** X21.  Behind the key check, [/filter-songs] answers 403 exactly when the
    [x-api-key] header is not a non-empty string equal to the configured
    key; a request that reaches the oracle has sent the right key, and with
    the right key the answer is the handler's. *)
Theorem filter_songs_forbidden_iff CLIENT_API_KEY answer apiKey req_body :
  let valid := exists key, key <> [] /\ apiKey = Some key
                           /\ CLIENT_API_KEY = Some key in
  (FilterSongs.status
     (snd (FilterSongs.post_filter_songs CLIENT_API_KEY answer apiKey
                                         req_body)) = 403
   <-> ~ valid)
  /\ (fst (FilterSongs.post_filter_songs CLIENT_API_KEY answer apiKey
                                         req_body) <> [] -> valid)
  /\ (valid ->
      FilterSongs.post_filter_songs CLIENT_API_KEY answer apiKey req_body
      = FilterSongs.filter_songs answer req_body).
Proof.
  cbn zeta. unfold FilterSongs.post_filter_songs.
  pose proof (checkApiKey_None CLIENT_API_KEY apiKey) as I.
  destruct (checkApiKey_status CLIENT_API_KEY apiKey) as [E|E]; rewrite E in *.
  - assert (V := proj1 I eq_refl). split; [|split]; auto.
    split; [|tauto]. intros H. now apply filter_songs_status in H.
  - cbn. split; [|split].
    + split; auto. intros _ V. apply I in V. discriminate.
    + congruence.
    + intros V. apply I in V. discriminate.
Qed.

Lemma filter_songs_forbidden_iff_witness :
  FilterSongs.post_filter_songs (Some secret) (Some recommendation)
                                (Some secret) shape_of_you_request
  = ([FilterSongs.Generate (VStr (lit "Shape of You"))],
     {| FilterSongs.status := 200;
        FilterSongs.json := FilterSongs.SuggestedSongs recommended |}).
Proof.
  rewrite (proj2 (proj2 (filter_songs_forbidden_iff
                           (Some secret) (Some recommendation) (Some secret)
                           shape_of_you_request))).
  - vm_compute; reflexivity.
  - exists secret. repeat split. discriminate.
Defined.

(** ** The errors that name a stage (lines 140-153, 241-254) *)

(** X22.  The error "Failed to parse response from AI" is sent exactly when
    the cleaned first answer is no JSON, and then the first oracle call is
    the only call made; "Failed to parse filter response from AI" exactly
    when the request got past the catalog stage and the cleaned second
    answer is no JSON; "Unexpected filter JSON format" exactly when the
    second answer parsed to a falsy value or to one without an array at
    [mySuggestion]. *)
Theorem errors_name_their_stage w req_body :
  (json (snd (smart_search w req_body))
   = Error "Failed to parse response from AI"
   <-> exists userInput output,
         userInput_of req_body = ret userInput
         /\ suggest_answer w = Some output
         /\ JSON.parse (clean output) = None
         /\ fst (smart_search w req_body)
            = [Generate (SuggestPrompt userInput)])
  /\ (json (snd (smart_search w req_body))
      = Error "Failed to parse filter response from AI"
      <-> exists userInput songs final text filterOutput,
            gathers w req_body userInput songs final
            /\ ToString userInput = Some text
            /\ filter_answer w = Some filterOutput
            /\ JSON.parse (clean filterOutput) = None)
  /\ (json (snd (smart_search w req_body))
      = Error "Unexpected filter JSON format"
      <-> exists final fs,
            judges w req_body final fs
            /\ ToBoolean fs && isArray (Get fs (lit "mySuggestion")) = false).
Proof.
  split; [|split]; split.
  - intros H. exits w req_body; try discriminate.
    exists ui, out. auto.
  - intros [ui [out [Hu [Ha [Hp _]]]]].
    now rewrite (outcome_sound _ _ _ _
                   (suggest_unparsable w req_body ui out Hu Ha Hp)).
  - intros H. exits w req_body; try discriminate.
    exists ui, songs, final, txt, out. auto.
  - intros [ui [songs [final [text [out [Hg [Hx [Hb Hy]]]]]]]].
    now rewrite (outcome_sound _ _ _ _
                   (filter_unparsable w req_body ui songs final text out
                                      Hg Hx Hb Hy)).
  - intros H. exits w req_body; try discriminate.
    exists final, fs. split; auto. eapply asked_judges; eassumption.
  - intros [final [fs [[ui songs text out Hg Hx Hb Hy] Hc]]].
    now rewrite (outcome_sound _ _ _ _
                   (filter_malformed w req_body ui songs final text out fs
                                     Hg Hx Hb Hy Hc)).
Qed.

Lemma errors_name_their_stage_witness :
  json (snd (smart_search chatty_filter shape_of_you_request))
  = Error "Failed to parse filter response from AI".
Proof.
  apply (proj2 (proj1 (proj2 (errors_name_their_stage
                                chatty_filter shape_of_you_request)))).
  eexists _, _, _, _, _.
  split; [run_edge|]. split; [vm_compute; reflexivity|].
  split; vm_compute; reflexivity.
Defined.
